(** * Combo-event resources of the AI engine FAL, and the simulator IO backend

    A shallow embedding of

    - [fal/src/rsc/xaiefal-events.hpp] : class [XAieComboEvent]
      (the constructor, [setEvents], [getEvents], [getInputEvents],
      [_reserve], [_release], [_start], [_stop], [XAieAllocRsc],
      [XAieReleaseRsc]);
    - [driver/src/io_backend/ext/xaie_sim.c] : the [__AIESIM__] build of
      [XAie_SimIO_Read32], [XAie_SimIO_Write32], [XAie_SimIO_MaskWrite32],
      [XAie_SimIO_MaskPoll], [XAie_SimIO_BlockWrite32] and
      [XAie_SimIO_BlockSet32].

    Conventions.  C integers are [Z]; a [std::vector] is a [list] indexed by
    [nat], read with [!!] and written with [<[ i := x ]>]; an access outside
    the vector, or the use of a local that was never assigned, is undefined
    behaviour in the source and is [None] in the functions below.  The
    process-wide bitmaps and the hardware are threaded explicitly. *)

From Stdlib Require Import ZArith Lia Bool.
From stdpp Require Import base option list.

Local Open Scope Z_scope.

(** ** Driver types used by the two files *)

(** [AieRC]: the status codes that occur in the two files. *)
Inductive AieRC : Type :=
  | XAIE_OK
  | XAIE_ERR
  | XAIE_INVALID_ARGS
  | XAIE_INVALID_BACKEND.

Definition rc_is_ok (rc : AieRC) : bool :=
  match rc with XAIE_OK => true | _ => false end.

(** [XAie_ModuleType]. *)
Inductive XAie_ModuleType : Type :=
  | XAIE_MEM_MOD
  | XAIE_CORE_MOD
  | XAIE_PL_MOD.

Definition mod_eqb (a b : XAie_ModuleType) : bool :=
  match a, b with
  | XAIE_MEM_MOD, XAIE_MEM_MOD => true
  | XAIE_CORE_MOD, XAIE_CORE_MOD => true
  | XAIE_PL_MOD, XAIE_PL_MOD => true
  | _, _ => false
  end.

(** [XAie_LocType]: a tile, both coordinates are [u8]. *)
Record XAie_LocType : Type := XAie_TileLoc { Col : Z; Row : Z }.

(** [XAie_Events] and [XAie_EventComboOps] are enums of the driver; only
    their numeric codes matter here.  A value-initialised event is [0]. *)
Definition XAie_Events : Type := Z.
Definition XAie_EventComboOps : Type := Z.

(** Modelled from the spec: the enum [XAie_EventComboId] is declared in the
    driver headers; the hardware combiners are numbered 0 and 1 (pairwise)
    and 2 (top level). *)
Definition XAie_EventComboId : Type := Z.
Definition XAIE_EVENT_COMBO0 : XAie_EventComboId := 0.
Definition XAIE_EVENT_COMBO1 : XAie_EventComboId := 1.
Definition XAIE_EVENT_COMBO2 : XAie_EventComboId := 2.

(** [XAie_UserRsc]: location, module and id of one allocated slot. *)
Record XAie_UserRsc : Type := mkUserRsc {
  rsc_Loc : XAie_LocType;
  rsc_Mod : XAie_ModuleType;
  RscId : Z
}.

(** ** The bitmap slot pool *)

(** The three bit arrays of [XAieDevHandle].  An array of 64-bit words used
    as a bit array is the integer whose binary digits are the bits: bit
    [p] of the array is [Z.testbit bits p]. *)
Record XAieDevHandle : Type := mkDevHandle {
  XAieComboCoreBits : Z;
  XAieComboMemBits : Z;
  XAieComboShimBits : Z
}.

(** Which of the three arrays the local pointer [bits] points to. *)
Inductive bits_ptr : Type := CoreBits | MemBits | ShimBits.

Definition load_bits (p : bits_ptr) (Dev : XAieDevHandle) : Z :=
  match p with
  | CoreBits => XAieComboCoreBits Dev
  | MemBits => XAieComboMemBits Dev
  | ShimBits => XAieComboShimBits Dev
  end.

Definition store_bits (p : bits_ptr) (v : Z) (Dev : XAieDevHandle) : XAieDevHandle :=
  match p with
  | CoreBits => mkDevHandle v (XAieComboMemBits Dev) (XAieComboShimBits Dev)
  | MemBits => mkDevHandle (XAieComboCoreBits Dev) v (XAieComboShimBits Dev)
  | ShimBits => mkDevHandle (XAieComboCoreBits Dev) (XAieComboMemBits Dev) v
  end.

(** Modelled from the spec: the scan of [XAieRsc::alloc_rsc_bit], which is
    defined in [xaiefal-rsc-base.hpp]: the first clear bit among the [n]
    bits that start at [bit]. *)
Fixpoint first_free_bit (bits : Z) (bit : Z) (n : nat) : option Z :=
  match n with
  | O => None
  | S n' => if Z.testbit bits bit then first_free_bit bits (bit + 1) n' else Some bit
  end.

(** Modelled from the spec: [XAieRsc::alloc_rsc_bit] is defined in
    [xaiefal-rsc-base.hpp]; it scans [bits2check] consecutive bits starting
    at [sbit] for the first unset bit, sets it and returns its absolute
    position, and returns a negative sentinel, leaving the bitmap as it is,
    when no bit of the range is free. *)
Definition alloc_rsc_bit (bits : Z) (sbit bits2check : Z) : Z * Z :=
  match first_free_bit bits sbit (Z.to_nat bits2check) with
  | Some bit => (bit, Z.setbit bits bit)
  | None => (-1, bits)
  end.

(** Modelled from the spec: [XAieRsc::clear_rsc_bit] is defined in
    [xaiefal-rsc-base.hpp]; it clears exactly one bit. *)
Definition clear_rsc_bit (bits : Z) (pos : Z) : Z := Z.clearbit bits pos.

(** The test that opens both [XAieAllocRsc] and [XAieReleaseRsc]:
    [(R.Loc.Row == 0 && R.Mod != XAIE_PL_MOD) ||
     (R.Loc.Row != 0 && R.Mod == XAIE_PL_MOD)]. *)
Definition tile_mod_mismatch (row : Z) (m : XAie_ModuleType) : bool :=
  ((row =? 0) && negb (mod_eqb m XAIE_PL_MOD)) ||
  (negb (row =? 0) && mod_eqb m XAIE_PL_MOD).

(** [XAieComboEvent::XAieAllocRsc(Dev, L, M, R)].  [R] is passed by
    reference: the function reads the record it finds there in its opening
    test and overwrites it on success.  The result is the status, the
    bitmaps and the content of [R] on return. *)
Definition XAieAllocRsc (Dev : XAieDevHandle) (L : XAie_LocType)
    (M : XAie_ModuleType) (R : XAie_UserRsc)
    : AieRC * XAieDevHandle * XAie_UserRsc :=
  if tile_mod_mismatch (Row (rsc_Loc R)) (rsc_Mod R) then
    (XAIE_INVALID_ARGS, Dev, R)
  else
    let '(RC, bits, sbit) :=
      if mod_eqb M XAIE_CORE_MOD then
        (XAIE_OK, CoreBits, (Col L * 8 + (Row L - 1)) * 4)
      else if mod_eqb M XAIE_MEM_MOD then
        (XAIE_OK, MemBits, (Col L * 8 + (Row L - 1)) * 4)
      else if mod_eqb M XAIE_PL_MOD then
        (XAIE_OK, ShimBits, Col L * 4)
      else
        (XAIE_INVALID_ARGS, CoreBits, 0) in
    if rc_is_ok RC then
      let bits2check := 4 in
      let '(bit, bits') := alloc_rsc_bit (load_bits bits Dev) sbit bits2check in
      if bit <? 0 then
        (XAIE_ERR, store_bits bits bits' Dev, R)
      else
        (XAIE_OK, store_bits bits bits' Dev, mkUserRsc L M (bit - sbit))
    else
      (RC, Dev, R).

(** [XAieComboEvent::XAieReleaseRsc(Dev, R)]. *)
Definition XAieReleaseRsc (Dev : XAieDevHandle) (R : XAie_UserRsc) : XAieDevHandle :=
  if tile_mod_mismatch (Row (rsc_Loc R)) (rsc_Mod R) then
    Dev
  else
    let '(bits, pos) :=
      if mod_eqb (rsc_Mod R) XAIE_PL_MOD then
        (ShimBits, Col (rsc_Loc R) * 4 + RscId R)
      else if mod_eqb (rsc_Mod R) XAIE_CORE_MOD then
        (CoreBits, (Col (rsc_Loc R) * 8 + (Row (rsc_Loc R) - 1)) * 4 + RscId R)
      else
        (MemBits, (Col (rsc_Loc R) * 8 + (Row (rsc_Loc R) - 1)) * 4 + RscId R) in
    store_bits bits (clear_rsc_bit (load_bits bits Dev) pos) Dev.

(** ** The combo event resource *)

(** The flags of [XAieRscState] that the class reads and writes. *)
Record XAieRscState : Type := mkRscState {
  Initialized : bool;
  Configured : bool;
  Reserved : bool
}.

(** The members of an [XAieComboEvent] object.  [Loc], [Mod], [State] and
    [Rsc] are inherited from [XAieSingleTileRsc]. *)
Record XAieComboEvent : Type := mkComboEvent {
  Loc : XAie_LocType;
  Mod : XAie_ModuleType;
  State : XAieRscState;
  Rsc : XAie_UserRsc;
  vEvents : list XAie_Events;
  vOps : list XAie_EventComboOps;
  vRscs : list XAie_UserRsc
}.

Definition set_State (o : XAieComboEvent) (s : XAieRscState) : XAieComboEvent :=
  mkComboEvent (Loc o) (Mod o) s (Rsc o) (vEvents o) (vOps o) (vRscs o).
Definition set_Rsc (o : XAieComboEvent) (r : XAie_UserRsc) : XAieComboEvent :=
  mkComboEvent (Loc o) (Mod o) (State o) r (vEvents o) (vOps o) (vRscs o).
Definition set_vEvents (o : XAieComboEvent) (l : list XAie_Events) : XAieComboEvent :=
  mkComboEvent (Loc o) (Mod o) (State o) (Rsc o) l (vOps o) (vRscs o).
Definition set_vOps (o : XAieComboEvent) (l : list XAie_EventComboOps) : XAieComboEvent :=
  mkComboEvent (Loc o) (Mod o) (State o) (Rsc o) (vEvents o) l (vRscs o).
Definition set_vRscs (o : XAieComboEvent) (l : list XAie_UserRsc) : XAieComboEvent :=
  mkComboEvent (Loc o) (Mod o) (State o) (Rsc o) (vEvents o) (vOps o) l.

(** [v.push_back(x)] and the loop [for (i = 0; i < src.size(); i++)
    dst.push_back(src[i])]. *)
Definition push_back {A : Type} (v : list A) (x : A) : list A := v ++ [x].
Definition push_back_all {A : Type} (dst src : list A) : list A :=
  fold_left push_back src dst.

(** The constructor.  [None] is the [std::invalid_argument] exception.  The
    base-class constructor [XAieSingleTileRsc(DevHd, L, M)] is in
    [xaiefal-rsc-base.hpp]; as in the data model of the specification it
    fixes location and module and leaves the state flags clear and no slot
    held. *)
Definition XAieComboEvent_new (L : XAie_LocType) (M : XAie_ModuleType)
    (ENum : Z) : option XAieComboEvent :=
  if (ENum >? 4) || (ENum <? 2) then None
  else Some {|
    Loc := L; Mod := M;
    State := {| Initialized := true; Configured := false; Reserved := false |};
    Rsc := mkUserRsc L M 0;
    vEvents := replicate (Z.to_nat ENum) 0;
    vOps := [];
    vRscs := []
  |}.

(** [getInputEvents(vE, vOp)]: the status and the contents of the two output
    vectors on return ([vE] and [vOp] are what the caller passed in). *)
Definition getInputEvents (o : XAieComboEvent) (vE : list XAie_Events)
    (vOp : list XAie_EventComboOps)
    : AieRC * list XAie_Events * list XAie_EventComboOps :=
  if Configured (State o) then
    (XAIE_OK, push_back_all [] (vEvents o), push_back_all [] (vOps o))
  else
    (XAIE_ERR, vE, vOp).

(** The count check of [setEvents]:
    [(vE.size() != vEvents.size()) || (vOp.size() > 3) ||
     (vE.size() <= 2 && vOp.size() > 1) || (vE.size() > 2 && vOps.size() < 2)].
    The fourth disjunct reads the member [vOps], as the source does. *)
Definition setEvents_bad_counts (o : XAieComboEvent) (vE : list XAie_Events)
    (vOp : list XAie_EventComboOps) : bool :=
  negb (length vE =? length (vEvents o))%nat
  || (3 <? length vOp)%nat
  || ((length vE <=? 2)%nat && (1 <? length vOp)%nat)
  || ((2 <? length vE)%nat && (length (vOps o) <? 2)%nat).

Section Translation.

(** [XAie_EventLogicalToPhysicalConv(dev(), Loc, Mod, E, &HwEvent)] is a
    function of the driver; here it is its status.  The physical event it
    stores in [HwEvent] is not used by the class. *)
Variable XAie_EventLogicalToPhysicalConv :
  XAie_LocType -> XAie_ModuleType -> XAie_Events -> AieRC.

(** The translation loop of [setEvents], from index [i] on; [rest] is
    [vE[i..]].  [RC] is [None] as long as the local was never assigned. *)
Fixpoint setEvents_loop (L : XAie_LocType) (M : XAie_ModuleType)
    (rest : list XAie_Events) (i : nat) (RC : option AieRC)
    (vEv : list XAie_Events) : option AieRC * list XAie_Events :=
  match rest with
  | [] => (RC, vEv)
  | e :: rest' =>
      let RC' := XAie_EventLogicalToPhysicalConv L M e in
      if rc_is_ok RC' then
        setEvents_loop L M rest' (S i) (Some RC') (<[ i := e ]> vEv)
      else
        (Some RC', vEv)
  end.

(** [setEvents(vE, vOp)]. *)
Definition setEvents (o : XAieComboEvent) (vE : list XAie_Events)
    (vOp : list XAie_EventComboOps) : option (AieRC * XAieComboEvent) :=
  if negb (Initialized (State o)) then
    Some (XAIE_ERR, o)
  else if setEvents_bad_counts o vE vOp then
    Some (XAIE_INVALID_ARGS, o)
  else
    let '(RC, vEv) := setEvents_loop (Loc o) (Mod o) vE 0 None (vEvents o) in
    let o1 := set_vEvents o vEv in
    match RC with
    | None => None
    | Some rc =>
        if rc_is_ok rc then
          let o2 := set_vOps o1 (push_back_all [] vOp) in
          Some (rc, set_State o2 (mkRscState (Initialized (State o2)) true
                                             (Reserved (State o2))))
        else
          Some (rc, o1)
    end.

End Translation.

(** ** Reserving and releasing slots *)

(** The rollback loop of [_reserve]:
    [for (j = 0; j < i; j++) XAieReleaseRsc(AieHd, vRscs[j])], with [n]
    iterations left. *)
Fixpoint release_upto (vR : list XAie_UserRsc) (j n : nat)
    (Dev : XAieDevHandle) : option XAieDevHandle :=
  match n with
  | O => Some Dev
  | S n' =>
      match vR !! j with
      | None => None
      | Some r => release_upto vR (S j) n' (XAieReleaseRsc Dev r)
      end
  end.

Section Reserve.

(** The local [XAie_UserRsc R] of the loop body of [_reserve] is not
    initialised; [R_uninit i] is what iteration [i] finds in it. *)
Variable R_uninit : nat -> XAie_UserRsc.

(** The allocation loop of [_reserve] at index [i], with [n] iterations
    left. *)
Fixpoint _reserve_loop (L : XAie_LocType) (M : XAie_ModuleType) (n i : nat)
    (Dev : XAieDevHandle) (vR : list XAie_UserRsc)
    : option (XAieDevHandle * list XAie_UserRsc) :=
  match n with
  | O => Some (Dev, vR)
  | S n' =>
      let '(RC, Dev1, R) := XAieAllocRsc Dev L M (R_uninit i) in
      if rc_is_ok RC then
        _reserve_loop L M n' (S i) Dev1 (push_back vR R)
      else
        match release_upto vR 0 i Dev1 with
        | None => None
        | Some Dev2 => _reserve_loop L M n' (S i) Dev2 vR
        end
  end.

(** [_reserve()]. *)
Definition _reserve (o : XAieComboEvent) (Dev : XAieDevHandle)
    : option (AieRC * XAieComboEvent * XAieDevHandle) :=
  match _reserve_loop (Loc o) (Mod o) (length (vEvents o)) 0 Dev (vRscs o) with
  | None => None
  | Some (Dev', vR) =>
      match vR !! 0%nat with
      | None => None
      | Some r0 =>
          let id :=
            if (length vR <=? 2)%nat then
              if RscId r0 <? 2 then 0 else 1
            else 2 in
          let o1 := set_vRscs o vR in
          Some (XAIE_OK, set_Rsc o1 (mkUserRsc (rsc_Loc (Rsc o1)) (rsc_Mod r0) id), Dev')
      end
  end.

End Reserve.

(** [_release()]. *)
Definition _release (o : XAieComboEvent) (Dev : XAieDevHandle)
    : AieRC * XAieComboEvent * XAieDevHandle :=
  (XAIE_OK, set_vRscs o [], fold_left XAieReleaseRsc (vRscs o) Dev).

(** ** Programming the combiners *)

Section Hardware.

(** The hardware behind [dev()], and the two driver calls of [_start],
    [XAie_EventComboConfig(dev(), Loc, Mod, ComboId, Op, E1, E2)] and
    [XAie_EventComboReset(dev(), Loc, Mod, ComboId)], as functions of its
    state. *)
Variable HW : Type.
Variable XAie_EventComboConfig :
  HW -> XAie_LocType -> XAie_ModuleType -> XAie_EventComboId ->
  XAie_EventComboOps -> XAie_Events -> XAie_Events -> AieRC * HW.
Variable XAie_EventComboReset :
  HW -> XAie_LocType -> XAie_ModuleType -> XAie_EventComboId -> AieRC * HW.

(** The rollback loop of [_start]:
    [for (tId = StartCId; tId < ComboId; tId = tId + i) XAie_EventComboReset(.., tId)].
    [None] when [fuel] iterations do not reach the exit. *)
Fixpoint _start_rollback (L : XAie_LocType) (M : XAie_ModuleType)
    (fuel : nat) (tId ComboId : XAie_EventComboId) (i : Z) (hw : HW)
    : option HW :=
  if tId <? ComboId then
    match fuel with
    | O => None
    | S fuel' =>
        _start_rollback L M fuel' (tId + i) ComboId i
          (snd (XAie_EventComboReset hw L M tId))
    end
  else Some hw.

(** The programming loop of [_start] at index [i] (which advances by 2),
    with [n] iterations left.  [StartCId] is [None] until it is assigned;
    the result is the value of [RC] after the loop and the hardware. *)
Fixpoint _start_loop (o : XAieComboEvent) (n i : nat)
    (StartCId : option XAie_EventComboId) (RC : option AieRC) (hw : HW)
    : option (option AieRC * HW) :=
  match n with
  | O => Some (RC, hw)
  | S n' =>
      r ← vRscs o !! i;
      let ComboId := if RscId r =? 0 then XAIE_EVENT_COMBO0 else XAIE_EVENT_COMBO1 in
      let StartCId := if (i =? 0)%nat then Some ComboId else StartCId in
      op ← vOps o !! (i / 2)%nat;
      e1 ← vEvents o !! i;
      e2 ← vEvents o !! (i + 1)%nat;
      let '(RC', hw1) := XAie_EventComboConfig hw (Loc o) (Mod o) ComboId op e1 e2 in
      if rc_is_ok RC' then
        _start_loop o n' (i + 2)%nat StartCId (Some RC') hw1
      else
        s ← StartCId;
        hw2 ← _start_rollback (Loc o) (Mod o) (Z.to_nat (ComboId - s)) s ComboId
                (Z.of_nat i) hw1;
        Some (Some RC', hw2)
  end.

(** [_start()].  The loop [for (i = 0; i < vEvents.size(); i += 2)] runs
    [(size + 1) / 2] times. *)
Definition _start (o : XAieComboEvent) (hw : HW) : option (AieRC * HW) :=
  '(RC, hw1) ← _start_loop o ((length (vEvents o) + 1) / 2)%nat 0 None None hw;
  rc ← RC;
  if rc_is_ok rc && (length (vOps o) =? 3)%nat then
    op ← vOps o !! 2%nat;
    e ← vEvents o !! 0%nat;
    Some (XAie_EventComboConfig hw1 (Loc o) (Mod o) XAIE_EVENT_COMBO2 op e e)
  else
    Some (rc, hw1).

End Hardware.

(** A hardware that records the driver calls made on it, each
    [XAie_EventComboConfig] with its status.  [fails id] tells whether
    programming combiner [id] fails. *)
Inductive combo_call : Type :=
  | CallConfig (id : XAie_EventComboId) (op : XAie_EventComboOps)
               (e1 e2 : XAie_Events) (rc : AieRC)
  | CallReset (id : XAie_EventComboId).

Definition rec_config (fails : XAie_EventComboId -> bool) (hw : list combo_call)
    (L : XAie_LocType) (M : XAie_ModuleType) (id : XAie_EventComboId)
    (op : XAie_EventComboOps) (e1 e2 : XAie_Events) : AieRC * list combo_call :=
  let rc := if fails id then XAIE_ERR else XAIE_OK in
  (rc, hw ++ [CallConfig id op e1 e2 rc]).

Definition rec_reset (hw : list combo_call) (L : XAie_LocType)
    (M : XAie_ModuleType) (id : XAie_EventComboId) : AieRC * list combo_call :=
  (XAIE_OK, hw ++ [CallReset id]).

(** Combiner [id] was programmed by a call in [calls] and no later call of
    [calls] resets it. *)
Fixpoint left_programmed (id : XAie_EventComboId) (calls : list combo_call) : bool :=
  match calls with
  | [] => false
  | CallConfig id' _ _ _ rc :: rest =>
      ((id' =? id) && rc_is_ok rc && negb (existsb
          (fun c => match c with CallReset j => j =? id | _ => false end) rest))
      || left_programmed id rest
  | CallReset _ :: rest => left_programmed id rest
  end.

(** ** The simulator IO backend *)

(** [XAIELIB_SUCCESS] and [XAIELIB_FAILURE], the two results of
    [XAie_SimIO_MaskPoll]. *)
Inductive XAieLib_Status : Type := XAIELIB_SUCCESS | XAIELIB_FAILURE.

(** [XAie_SimIO]. *)
Record XAie_SimIO : Type := mkSimIO { BaseAddr : Z }.

Section Simulator.

(** The simulator behind [ess_Read32], and what [usleep] does to it: a
    register read returns a value and may change the simulator, and time
    passing may change it too. *)
Variable Sim : Type.
Variable ess_Read32 : Sim -> Z -> Z * Sim.
Variable usleep : Z -> Sim -> Sim.

(** [XAie_SimIO_Read32(IOInst, RegOff)], a [u64] address. *)
Definition XAie_SimIO_Read32 (IOInst : XAie_SimIO) (RegOff : Z) (s : Sim)
    : Z * Sim :=
  ess_Read32 s ((BaseAddr IOInst + RegOff) mod 2 ^ 64).

(** The loop [while (TimeOutUs > 0U)] of [XAie_SimIO_MaskPoll]; [ticks] is
    the current value of [TimeOutUs].  The third component lists the
    values the reads returned, oldest first. *)
Fixpoint MaskPoll_loop (IOInst : XAie_SimIO) (RegOff Mask Value : Z)
    (ticks : nat) (s : Sim) (reads : list Z)
    : XAieLib_Status * Sim * list Z :=
  match ticks with
  | O => (XAIELIB_FAILURE, s, reads)
  | S ticks' =>
      let '(v, s1) := XAie_SimIO_Read32 IOInst RegOff s in
      if Z.land v Mask =? Value then
        (XAIELIB_SUCCESS, s1, reads ++ [v])
      else
        MaskPoll_loop IOInst RegOff Mask Value ticks' (usleep 1 s1) (reads ++ [v])
  end.

(** [XAie_SimIO_MaskPoll(IOInst, RegOff, Mask, Value, TimeOutUs)] of the
    [__AIESIM__] build.  [TimeOutUs] is unsigned. *)
Definition XAie_SimIO_MaskPoll (IOInst : XAie_SimIO) (RegOff Mask Value : Z)
    (TimeOutUs : N) (s : Sim) : XAieLib_Status * Sim * list Z :=
  let TimeOutUs := if (TimeOutUs =? 0)%N then (TimeOutUs + 1)%N else TimeOutUs in
  MaskPoll_loop IOInst RegOff Mask Value (N.to_nat TimeOutUs) s [].

(** The simulator after [k] unsuccessful polls (a read, then [usleep(1)]),
    and the value that the next read of the register returns then. *)
Fixpoint sim_after (IOInst : XAie_SimIO) (RegOff : Z) (k : nat) (s : Sim) : Sim :=
  match k with
  | O => s
  | S k' =>
      usleep 1 (snd (XAie_SimIO_Read32 IOInst RegOff (sim_after IOInst RegOff k' s)))
  end.

Definition read_at (IOInst : XAie_SimIO) (RegOff : Z) (k : nat) (s : Sim) : Z :=
  fst (XAie_SimIO_Read32 IOInst RegOff (sim_after IOInst RegOff k s)).

(** Poll number [k] (from 0) of the register, started in [s], sees the
    expected value under the mask: [(read & Mask) == Value]. *)
Definition poll_hits (IOInst : XAie_SimIO) (RegOff Mask Value : Z) (s : Sim)
    (k : nat) : Prop :=
  Z.land (read_at IOInst RegOff k s) Mask = Value.

End Simulator.

(** ** The derived combo events *)

Section Events.

(** [_XAie_GetTileTypefromLoc(dev(), Loc)] and the constants [getEvents]
    compares with and starts from are declared in the driver. *)
Variable _XAie_GetTileTypefromLoc : XAie_LocType -> Z.
Variable XAIEGBL_TILE_TYPE_AIETILE : Z.
Variable XAIE_EVENT_COMBO_EVENT_0_CORE : XAie_Events.
Variable XAIE_EVENT_COMBO_EVENT_0_MEM : XAie_Events.
Variable XAIE_EVENT_COMBO_EVENT_0_PL : XAie_Events.

(** [(XAie_Events)((uint32_t)BaseE + k)], an addition of [uint32_t]. *)
Definition combo_event (BaseE : XAie_Events) (k : Z) : XAie_Events :=
  (BaseE mod 2 ^ 32 + k) mod 2 ^ 32.

(** The loop [for (i = 0; i < vOps.size(); i++) vE.push_back(BaseE + i)] of
    [getEvents] at index [i], with [n] iterations left. *)
Fixpoint getEvents_loop (BaseE : XAie_Events) (n : nat) (i : Z)
    (vE : list XAie_Events) : list XAie_Events :=
  match n with
  | O => vE
  | S n' => getEvents_loop BaseE n' (i + 1) (push_back vE (combo_event BaseE i))
  end.

(** [getEvents(vE)]: the status and the content of [vE] on return. *)
Definition getEvents (o : XAieComboEvent) (vE : list XAie_Events)
    : option (AieRC * list XAie_Events) :=
  if negb (Reserved (State o)) then
    Some (XAIE_ERR, vE)
  else
    let TType := _XAie_GetTileTypefromLoc (Loc o) in
    let BaseE :=
      if TType =? XAIEGBL_TILE_TYPE_AIETILE then
        if mod_eqb (Mod o) XAIE_CORE_MOD then XAIE_EVENT_COMBO_EVENT_0_CORE
        else XAIE_EVENT_COMBO_EVENT_0_MEM
      else XAIE_EVENT_COMBO_EVENT_0_PL in
    let vE := [] in
    if (length (vOps o) =? 1)%nat then
      r ← vRscs o !! 0%nat;
      Some (XAIE_OK, push_back vE (combo_event BaseE (RscId r)))
    else
      Some (XAIE_OK, getEvents_loop BaseE (length (vOps o)) 0 vE).

End Events.

(** ** Stopping the combiners *)

Section HardwareStop.

Variable HW : Type.
Variable XAie_EventComboReset :
  HW -> XAie_LocType -> XAie_ModuleType -> XAie_EventComboId -> AieRC * HW.

(** The loop [for (i = 0; i < vOps.size(); i++)] of [_stop] at index [i],
    with [n] iterations left.  Only the iteration [i == 0] has a body; the
    increment of [ComboId] that ends it is never read. *)
Fixpoint _stop_loop (o : XAieComboEvent) (n i : nat) (hw : HW) : option HW :=
  match n with
  | O => Some hw
  | S n' =>
      if (i =? 0)%nat then
        r ← vRscs o !! i;
        let ComboId := if RscId r =? 0 then XAIE_EVENT_COMBO0 else XAIE_EVENT_COMBO1 in
        _stop_loop o n' (S i) (snd (XAie_EventComboReset hw (Loc o) (Mod o) ComboId))
      else
        _stop_loop o n' (S i) hw
  end.

(** [_stop()]. *)
Definition _stop (o : XAieComboEvent) (hw : HW) : option (AieRC * HW) :=
  hw' ← _stop_loop o (length (vOps o)) 0 hw;
  Some (XAIE_OK, hw').

End HardwareStop.

(** ** Register writes of the simulator backend *)

Section SimulatorWrites.

(** The simulator behind [ess_Read32] and [ess_Write32]. *)
Variable Sim : Type.
Variable ess_Read32 : Sim -> Z -> Z * Sim.
Variable ess_Write32 : Sim -> Z -> Z -> Sim.

(** [XAie_SimIO_Write32(IOInst, RegOff, Value)], a [u64] address. *)
Definition XAie_SimIO_Write32 (IOInst : XAie_SimIO) (RegOff Value : Z)
    (s : Sim) : Sim :=
  ess_Write32 s ((BaseAddr IOInst + RegOff) mod 2 ^ 64) Value.

(** The value [XAie_SimIO_MaskWrite32] writes back:
    [RegVal &= ~Mask; RegVal |= Value], on [u32]. *)
Definition MaskWrite32_value (RegVal Mask Value : Z) : Z :=
  Z.lor (Z.land RegVal (Z.lnot Mask mod 2 ^ 32)) Value.

(** [XAie_SimIO_MaskWrite32(IOInst, RegOff, Mask, Value)]. *)
Definition XAie_SimIO_MaskWrite32 (IOInst : XAie_SimIO) (RegOff Mask Value : Z)
    (s : Sim) : Sim :=
  let '(RegVal, s1) := XAie_SimIO_Read32 Sim ess_Read32 IOInst RegOff s in
  XAie_SimIO_Write32 IOInst RegOff (MaskWrite32_value RegVal Mask Value) s1.

(** The register offset of word [i] in the two block functions:
    [RegOff + i * 4U], where [i * 4U] is a product of [u32] and the sum is
    a [u64]. *)
Definition block_offset (RegOff i : Z) : Z :=
  (RegOff + (i * 4) mod 2 ^ 32) mod 2 ^ 64.

(** The loop of [XAie_SimIO_BlockWrite32] at index [i], with [n] iterations
    left; [Data] is what the pointer [Data] points to.  [None] when the
    loop reads past the end of the buffer. *)
Fixpoint BlockWrite32_loop (IOInst : XAie_SimIO) (RegOff : Z) (Data : list Z)
    (i : Z) (n : nat) (s : Sim) {struct n} : option Sim :=
  match n with
  | O => Some s
  | S n' =>
      match Data with
      | [] => None
      | d :: Data' =>
          BlockWrite32_loop IOInst RegOff Data' (i + 1) n'
            (XAie_SimIO_Write32 IOInst (block_offset RegOff i) d s)
      end
  end.

(** [XAie_SimIO_BlockWrite32(IOInst, RegOff, Data, Size)]. *)
Definition XAie_SimIO_BlockWrite32 (IOInst : XAie_SimIO) (RegOff : Z)
    (Data : list Z) (Size : N) (s : Sim) : option Sim :=
  BlockWrite32_loop IOInst RegOff Data 0 (N.to_nat Size) s.

(** The loop of [XAie_SimIO_BlockSet32] at index [i], with [n] iterations
    left. *)
Fixpoint BlockSet32_loop (IOInst : XAie_SimIO) (RegOff Data : Z)
    (i : Z) (n : nat) (s : Sim) : Sim :=
  match n with
  | O => s
  | S n' =>
      BlockSet32_loop IOInst RegOff Data (i + 1) n'
        (XAie_SimIO_Write32 IOInst (block_offset RegOff i) Data s)
  end.

(** [XAie_SimIO_BlockSet32(IOInst, RegOff, Data, Size)]. *)
Definition XAie_SimIO_BlockSet32 (IOInst : XAie_SimIO) (RegOff Data : Z)
    (Size : N) (s : Sim) : Sim :=
  BlockSet32_loop IOInst RegOff Data 0 (N.to_nat Size) s.

(** A simulator is a plain register memory when a read does not change it
    and returns the value written last to the address. *)
Definition register_memory : Prop :=
  (forall s a, snd (ess_Read32 s a) = s) /\
  (forall s a v, fst (ess_Read32 (ess_Write32 s a v) a) = v) /\
  (forall s a b v, a <> b ->
     fst (ess_Read32 (ess_Write32 s a v) b) = fst (ess_Read32 s b)).

End SimulatorWrites.

(** ** Concrete devices and objects used in the examples *)

(** A translation that accepts every event, and one that turns down the
    event [bad] alone. *)
Definition conv_accepts_all (L : XAie_LocType) (M : XAie_ModuleType)
    (e : XAie_Events) : AieRC := XAIE_OK.
Definition conv_rejects (bad : XAie_Events) (L : XAie_LocType)
    (M : XAie_ModuleType) (e : XAie_Events) : AieRC :=
  if e =? bad then XAIE_INVALID_ARGS else XAIE_OK.

(** A freshly constructed object: what [XAieComboEvent_new] returns for an
    accepted event count. *)
Definition fresh_combo (L : XAie_LocType) (M : XAie_ModuleType) (n : nat)
    : XAieComboEvent :=
  {| Loc := L; Mod := M;
     State := {| Initialized := true; Configured := false; Reserved := false |};
     Rsc := mkUserRsc L M 0;
     vEvents := replicate n 0;
     vOps := [];
     vRscs := [] |}.

(** A two-event core resource at column 0, row 1, configured with the events
    10 and 11 and one operation. *)
Definition configured_pair : XAieComboEvent :=
  {| Loc := XAie_TileLoc 0 1; Mod := XAIE_CORE_MOD;
     State := {| Initialized := true; Configured := true; Reserved := false |};
     Rsc := mkUserRsc (XAie_TileLoc 0 1) XAIE_CORE_MOD 0;
     vEvents := [10; 11];
     vOps := [0];
     vRscs := [] |}.

(** A four-event core resource at column 0, row 1, with three operations,
    holding the slots 0 to 3 of its tile. *)
Definition reserved_quad : XAieComboEvent :=
  {| Loc := XAie_TileLoc 0 1; Mod := XAIE_CORE_MOD;
     State := {| Initialized := true; Configured := true; Reserved := true |};
     Rsc := mkUserRsc (XAie_TileLoc 0 1) XAIE_CORE_MOD 2;
     vEvents := [10; 11; 12; 13];
     vOps := [0; 1; 2];
     vRscs := map (mkUserRsc (XAie_TileLoc 0 1) XAIE_CORE_MOD) [0; 1; 2; 3] |}.

(** What the uninitialised local [R] of [_reserve] holds in the examples: a
    core record at row 1, which the opening test of [XAieAllocRsc] lets
    through. *)
Definition R_core_row1 (i : nat) : XAie_UserRsc :=
  mkUserRsc (XAie_TileLoc 0 1) XAIE_CORE_MOD 0.

(** [reserved_quad] before it was reserved. *)
Definition configured_quad : XAieComboEvent :=
  {| Loc := XAie_TileLoc 0 1; Mod := XAIE_CORE_MOD;
     State := {| Initialized := true; Configured := true; Reserved := false |};
     Rsc := mkUserRsc (XAie_TileLoc 0 1) XAIE_CORE_MOD 0;
     vEvents := [10; 11; 12; 13];
     vOps := [0; 1; 2];
     vRscs := [] |}.

(** A simulated register that reads 0 for the first [n] polls and 5 from
    then on; the simulator state is the number of polls so far. *)
Definition counter_read (n : nat) (s : nat) (addr : Z) : Z * nat :=
  (if (s <? n)%nat then 0 else 5, s).
Definition counter_usleep (us : Z) (s : nat) : nat := S s.

(** A register memory: the simulator state maps an address to the value
    of the register there. *)
Definition regs_read (s : Z -> Z) (addr : Z) : Z * (Z -> Z) := (s addr, s).
Definition regs_write (s : Z -> Z) (addr v : Z) : Z -> Z :=
  fun a => if a =? addr then v else s a.
Definition regs_usleep (us : Z) (s : Z -> Z) : Z -> Z := s.

(** A two-event core resource at column 2, row 3, reserved with slot 1 and
    configured with one operation. *)
Definition reserved_pair : XAieComboEvent :=
  {| Loc := XAie_TileLoc 2 3; Mod := XAIE_CORE_MOD;
     State := {| Initialized := true; Configured := true; Reserved := true |};
     Rsc := mkUserRsc (XAie_TileLoc 2 3) XAIE_CORE_MOD 0;
     vEvents := [10; 11];
     vOps := [7];
     vRscs := [mkUserRsc (XAie_TileLoc 2 3) XAIE_CORE_MOD 1] |}.

(** A three-event core resource holding three slots. *)
Definition reserved_triple : XAieComboEvent :=
  {| Loc := XAie_TileLoc 0 1; Mod := XAIE_CORE_MOD;
     State := {| Initialized := true; Configured := true; Reserved := true |};
     Rsc := mkUserRsc (XAie_TileLoc 0 1) XAIE_CORE_MOD 2;
     vEvents := [10; 11; 12];
     vOps := [0; 1];
     vRscs := map (mkUserRsc (XAie_TileLoc 0 1) XAIE_CORE_MOD) [0; 1; 2] |}.



(** ** Reference definitions for the statements below *)

(** The start of the scanned range as the specification gives it: column * 4
    for the interface module, (column * 8 + (row - 1)) * 4 for the core and
    memory modules. *)
Definition spec_scan_base (L : XAie_LocType) (M : XAie_ModuleType) : Z :=
  match M with
  | XAIE_PL_MOD => Col L * 4
  | XAIE_CORE_MOD | XAIE_MEM_MOD => (Col L * 8 + (Row L - 1)) * 4
  end.

(** The bitmap that belongs to a module kind. *)
Definition spec_pool (M : XAie_ModuleType) : bits_ptr :=
  match M with
  | XAIE_CORE_MOD => CoreBits
  | XAIE_MEM_MOD => MemBits
  | XAIE_PL_MOD => ShimBits
  end.

(** [bit] is the first clear bit of [bits] among the [n] bits from [base]. *)
Definition first_clear_in (bits base n bit : Z) : Prop :=
  base <= bit < base + n /\
  Z.testbit bits bit = false /\
  forall q, base <= q < bit -> Z.testbit bits q = true.

(** None of the [n] bits of [bits] from [base] is clear. *)
Definition all_set_in (bits base n : Z) : Prop :=
  forall q, base <= q < base + n -> Z.testbit bits q = true.

(** The number of clear bits among the 4 bits of [bits] from [base]. *)
Definition free_bit (bits q : Z) : nat := if Z.testbit bits q then 0%nat else 1%nat.
Definition free_slots (bits base : Z) : nat :=
  (free_bit bits base + free_bit bits (base + 1) +
   free_bit bits (base + 2) + free_bit bits (base + 3))%nat.

(** The bit of the pool that a slot record stands for. *)
Definition slot_bit (r : XAie_UserRsc) : Z :=
  spec_scan_base (rsc_Loc r) (rsc_Mod r) + RscId r.

(** * Properties *)

(** ** The bitmap slot pool *)

Lemma first_free_bit_some bits n : forall b p,
  first_free_bit bits b n = Some p -> first_clear_in bits b (Z.of_nat n) p.
Proof.
  induction n as [|n IH]; intros b p H; simpl in H; [discriminate|].
  destruct (Z.testbit bits b) eqn:Hb.
  - destruct (IH _ _ H) as (Hr & Hp & Hq).
    split; [lia|]. split; [exact Hp|].
    intros q Hq'. destruct (Z.eq_dec q b) as [->|Hne]; [exact Hb|].
    apply Hq. lia.
  - inversion H; subst p.
    split; [lia|]. split; [exact Hb|].
    intros q Hq. lia.
Qed.

Lemma first_free_bit_none bits n : forall b,
  first_free_bit bits b n = None -> all_set_in bits b (Z.of_nat n).
Proof.
  induction n as [|n IH]; intros b H q Hq; [lia|].
  simpl in H. destruct (Z.testbit bits b) eqn:Hb; [|discriminate].
  destruct (Z.eq_dec q b) as [->|Hne]; [exact Hb|].
  apply (IH _ H). lia.
Qed.

Lemma first_clear_in_unique bits base n p q :
  first_clear_in bits base n p -> first_clear_in bits base n q -> p = q.
Proof.
  intros (Hp1 & Hp2 & Hp3) (Hq1 & Hq2 & Hq3).
  destruct (Z.lt_trichotomy p q) as [Hlt|[Heq|Hgt]]; [|exact Heq|].
  - rewrite Hq3 in Hp2 by lia. discriminate.
  - rewrite Hp3 in Hq2 by lia. discriminate.
Qed.

Lemma first_free_bit_found bits base n p :
  first_clear_in bits base (Z.of_nat n) p -> first_free_bit bits base n = Some p.
Proof.
  intros Hp. destruct (first_free_bit bits base n) as [q|] eqn:E.
  - f_equal. eapply first_clear_in_unique; [|exact Hp].
    now apply first_free_bit_some.
  - destruct Hp as (Hr & Hc & _).
    rewrite (first_free_bit_none _ _ _ E p Hr) in Hc. discriminate.
Qed.

Lemma first_free_bit_full bits base n :
  all_set_in bits base (Z.of_nat n) -> first_free_bit bits base n = None.
Proof.
  intros Hall. destruct (first_free_bit bits base n) as [q|] eqn:E; [|reflexivity].
  destruct (first_free_bit_some _ _ _ _ E) as (Hr & Hc & _).
  rewrite (Hall q Hr) in Hc. discriminate.
Qed.

Lemma store_load_same p Dev : store_bits p (load_bits p Dev) Dev = Dev.
Proof. destruct p, Dev; reflexivity. Qed.

Lemma load_store_same p v Dev : load_bits p (store_bits p v Dev) = v.
Proof. destruct p; reflexivity. Qed.

Lemma load_store_other p q v Dev :
  p <> q -> load_bits q (store_bits p v Dev) = load_bits q Dev.
Proof. destruct p, q; intros H; try reflexivity; congruence. Qed.

(** What [XAieAllocRsc] does once its opening test lets the call through:
    the scan is the one of [alloc_rsc_bit] on the pool and base of [M]. *)
Lemma XAieAllocRsc_unfold Dev L M R :
  tile_mod_mismatch (Row (rsc_Loc R)) (rsc_Mod R) = false ->
  XAieAllocRsc Dev L M R =
    let '(bit, bits') :=
      alloc_rsc_bit (load_bits (spec_pool M) Dev) (spec_scan_base L M) 4 in
    if bit <? 0 then (XAIE_ERR, store_bits (spec_pool M) bits' Dev, R)
    else (XAIE_OK, store_bits (spec_pool M) bits' Dev,
          mkUserRsc L M (bit - spec_scan_base L M)).
Proof.
  intros Hg. unfold XAieAllocRsc. rewrite Hg. destruct M; reflexivity.
Qed.

(** X25.  A slot allocation request that gets past the opening test scans the
    bitmap of its module kind from base column * 4 (interface) or
    (column * 8 + (row - 1)) * 4 (core, memory), over exactly 4 bits: if
    [bit] is the first clear bit of that range the call sets it, succeeds and
    returns the slot id [bit - base], which lies in 0..3, leaving every other
    bit and the other two bitmaps alone; if all 4 bits are set the call
    fails and changes nothing. *)
Theorem XAieAllocRsc_scans_four_bits Dev L M R :
  tile_mod_mismatch (Row (rsc_Loc R)) (rsc_Mod R) = false ->
  0 <= spec_scan_base L M ->
  (forall bit,
     first_clear_in (load_bits (spec_pool M) Dev) (spec_scan_base L M) 4 bit ->
     XAieAllocRsc Dev L M R =
       (XAIE_OK,
        store_bits (spec_pool M) (Z.setbit (load_bits (spec_pool M) Dev) bit) Dev,
        mkUserRsc L M (bit - spec_scan_base L M)) /\
     0 <= bit - spec_scan_base L M <= 3 /\
     Z.testbit (load_bits (spec_pool M) (snd (fst (XAieAllocRsc Dev L M R)))) bit = true /\
     (forall q, q <> bit ->
        Z.testbit (load_bits (spec_pool M) (snd (fst (XAieAllocRsc Dev L M R)))) q =
        Z.testbit (load_bits (spec_pool M) Dev) q) /\
     (forall p, p <> spec_pool M ->
        load_bits p (snd (fst (XAieAllocRsc Dev L M R))) = load_bits p Dev)) /\
  (all_set_in (load_bits (spec_pool M) Dev) (spec_scan_base L M) 4 ->
     XAieAllocRsc Dev L M R = (XAIE_ERR, Dev, R)).
Proof.
  intros Hg Hbase. rewrite (XAieAllocRsc_unfold _ _ _ _ Hg).
  unfold alloc_rsc_bit. change (Z.to_nat 4) with 4%nat. split.
  - intros bit Hbit. pose proof Hbit as (Hr & _ & _).
    rewrite (first_free_bit_found _ _ 4 bit Hbit).
    assert ((bit <? 0) = false) as -> by (apply Z.ltb_ge; lia).
    split; [reflexivity|]. split; [lia|]. cbn [fst snd].
    split; [|split].
    + rewrite load_store_same. apply Z.setbit_eq. lia.
    + intros q Hq. rewrite load_store_same. apply Z.setbit_neq; [lia|congruence].
    + intros p Hp. apply load_store_other. congruence.
  - intros Hall. rewrite (first_free_bit_full _ _ 4 Hall).
    change (-1 <? 0) with true. cbv iota. now rewrite store_load_same.
Qed.

(** X25, at a core tile in column 2, row 3, whose slots 0 and 1 are taken:
    the base is 72 and the call returns slot 2. *)
Lemma XAieAllocRsc_scans_four_bits_witness :
  XAieAllocRsc (mkDevHandle (3 * 2 ^ 72) 0 0) (XAie_TileLoc 2 3) XAIE_CORE_MOD
    (mkUserRsc (XAie_TileLoc 2 3) XAIE_CORE_MOD 0) =
  (XAIE_OK, mkDevHandle (Z.setbit (3 * 2 ^ 72) 74) 0 0,
   mkUserRsc (XAie_TileLoc 2 3) XAIE_CORE_MOD 2).
Proof.
  refine (proj1 (proj1 (XAieAllocRsc_scans_four_bits
    (mkDevHandle (3 * 2 ^ 72) 0 0) (XAie_TileLoc 2 3) XAIE_CORE_MOD
    (mkUserRsc (XAie_TileLoc 2 3) XAIE_CORE_MOD 0) _ _) 74 _)).
  - reflexivity.
  - simpl. lia.
  - split; [simpl; lia|]. split; [reflexivity|].
    intros q Hq. simpl in Hq.
    assert (q = 72 \/ q = 73) as [-> | ->] by lia; reflexivity.
Defined.

(** C6.  A request for a core slot at row 0 (column 1) is not turned down:
    the opening test looks at the record the caller left in [R], here a
    well-paired one, so the call takes bit 28 of the core bitmap and
    reports success. *)
Theorem XAieAllocRsc_mismatch_allocates :
  tile_mod_mismatch (Row (XAie_TileLoc 1 0)) XAIE_CORE_MOD = true /\
  XAieAllocRsc (mkDevHandle 0 0 0) (XAie_TileLoc 1 0) XAIE_CORE_MOD
    (mkUserRsc (XAie_TileLoc 0 1) XAIE_CORE_MOD 0) =
  (XAIE_OK, mkDevHandle (2 ^ 28) 0 0, mkUserRsc (XAie_TileLoc 1 0) XAIE_CORE_MOD 0).
Proof. split; reflexivity. Qed.

(** The opening test of [XAieAllocRsc] is on [R] alone: when it fires the
    call is turned down whatever [L] and [M] are, and when it does not fire
    the call is never turned down as an invalid argument. *)
Lemma XAieAllocRsc_test_on_R Dev L M R :
  if tile_mod_mismatch (Row (rsc_Loc R)) (rsc_Mod R)
  then XAieAllocRsc Dev L M R = (XAIE_INVALID_ARGS, Dev, R)
  else fst (fst (XAieAllocRsc Dev L M R)) <> XAIE_INVALID_ARGS.
Proof.
  destruct (tile_mod_mismatch _ _) eqn:Hg.
  - unfold XAieAllocRsc. now rewrite Hg.
  - rewrite (XAieAllocRsc_unfold _ _ _ _ Hg).
    destruct (alloc_rsc_bit _ _ _) as [bit bits'].
    destruct (bit <? 0); cbn; discriminate.
Qed.

Lemma tile_mod_mismatch_true row m :
  tile_mod_mismatch row m = true <->
  (row = 0 /\ m <> XAIE_PL_MOD) \/ (row <> 0 /\ m = XAIE_PL_MOD).
Proof.
  unfold tile_mod_mismatch. destruct (Z.eqb_spec row 0) as [E|E];
    destruct m; cbn; split; intros H;
    try discriminate; try reflexivity;
    try (left; split; [assumption | discriminate]);
    try (right; split; [assumption | reflexivity]);
    destruct H as [[H1 H2]|[H1 H2]]; congruence.
Qed.

(** C10.  A release request whose record pairs row 0 with a module other than
    the interface module, or another row with the interface module, returns
    without clearing a bit: the three bitmaps are as they were. *)
Theorem XAieReleaseRsc_mismatch_noop Dev R :
  (Row (rsc_Loc R) = 0 /\ rsc_Mod R <> XAIE_PL_MOD) \/
  (Row (rsc_Loc R) <> 0 /\ rsc_Mod R = XAIE_PL_MOD) ->
  XAieComboCoreBits (XAieReleaseRsc Dev R) = XAieComboCoreBits Dev /\
  XAieComboMemBits (XAieReleaseRsc Dev R) = XAieComboMemBits Dev /\
  XAieComboShimBits (XAieReleaseRsc Dev R) = XAieComboShimBits Dev.
Proof.
  intros H. apply tile_mod_mismatch_true in H.
  unfold XAieReleaseRsc. rewrite H. repeat split.
Qed.

(** C10, for a core record at row 0 and for an interface record at row 2,
    with slots taken in all three bitmaps. *)
Lemma XAieReleaseRsc_mismatch_noop_witness :
  XAieComboCoreBits (XAieReleaseRsc (mkDevHandle 15 15 15)
    (mkUserRsc (XAie_TileLoc 0 0) XAIE_CORE_MOD 1)) = 15 /\
  XAieComboShimBits (XAieReleaseRsc (mkDevHandle 15 15 15)
    (mkUserRsc (XAie_TileLoc 0 2) XAIE_PL_MOD 1)) = 15.
Proof.
  split.
  - refine (proj1 (XAieReleaseRsc_mismatch_noop (mkDevHandle 15 15 15)
      (mkUserRsc (XAie_TileLoc 0 0) XAIE_CORE_MOD 1) _)).
    left. split; [reflexivity | discriminate].
  - refine (proj2 (proj2 (XAieReleaseRsc_mismatch_noop (mkDevHandle 15 15 15)
      (mkUserRsc (XAie_TileLoc 0 2) XAIE_PL_MOD 1) _))).
    right. split; [discriminate | reflexivity].
Defined.

(** ** Configuring the input events *)

Lemma rc_is_ok_true rc : rc_is_ok rc = true <-> rc = XAIE_OK.
Proof. destruct rc; split; intros H; try reflexivity; discriminate. Qed.

Lemma rc_is_ok_false rc : rc_is_ok rc = false <-> rc <> XAIE_OK.
Proof. destruct rc; split; intros H; try reflexivity; try discriminate; congruence. Qed.

Lemma fold_push_back {A : Type} (src : list A) : forall dst,
  fold_left push_back src dst = dst ++ src.
Proof.
  induction src as [|x src IH]; intros dst; simpl.
  - now rewrite app_nil_r.
  - rewrite IH. unfold push_back. now rewrite <- app_assoc.
Qed.

Lemma push_back_all_nil {A : Type} (src : list A) : push_back_all [] src = src.
Proof. unfold push_back_all. now rewrite fold_push_back. Qed.

Lemma XAieComboEvent_new_fresh L M n :
  2 <= n <= 4 -> XAieComboEvent_new L M n = Some (fresh_combo L M (Z.to_nat n)).
Proof.
  intros Hn. unfold XAieComboEvent_new.
  assert ((n >? 4) = false) as -> by lia.
  assert ((n <? 2) = false) as -> by lia.
  reflexivity.
Qed.

Section TranslationFacts.

Variable conv : XAie_LocType -> XAie_ModuleType -> XAie_Events -> AieRC.
Variables (L : XAie_LocType) (M : XAie_ModuleType).

(** The store [vEvents[i] = vE[i]] at the boundary between the part
    already written and the part still to write. *)
Lemma insert_at_boundary (pre : list XAie_Events) e x old :
  <[ length pre := e ]> (pre ++ x :: old) = (pre ++ [e]) ++ old.
Proof.
  replace (length pre) with (length pre + 0)%nat by lia.
  rewrite insert_app_r. simpl. now rewrite <- app_assoc.
Qed.

(** A run of the loop that ends with an accepted status has stored all of
    [rest]; a run over an empty [rest] leaves [RC] as it was. *)
Lemma setEvents_loop_inv rest : forall pre old RC RC' vEv,
  length old = length rest ->
  setEvents_loop conv L M rest (length pre) RC (pre ++ old) = (RC', vEv) ->
  (exists rc, RC' = Some rc /\ rc <> XAIE_OK) \/
  (vEv = pre ++ rest /\ (RC' = Some XAIE_OK \/ (RC' = RC /\ rest = []))).
Proof.
  induction rest as [|e rest IH]; intros pre old RC RC' vEv Hlen H; simpl in H.
  - destruct old; [|discriminate]. inversion H; subst. right. auto.
  - destruct old as [|x old]; [discriminate|]. simpl in Hlen.
    destruct (rc_is_ok (conv L M e)) eqn:Hok.
    + rewrite insert_at_boundary in H.
      replace (S (length pre)) with (length (pre ++ [e])) in H
        by (rewrite length_app; simpl; lia).
      apply IH in H; [|lia].
      destruct H as [H|[Hv Hrc]]; [left; exact H|right].
      split; [rewrite Hv, <- app_assoc; reflexivity|].
      left. destruct Hrc as [Hrc|[Hrc _]]; [exact Hrc|].
      rewrite Hrc. f_equal. now apply rc_is_ok_true.
    + inversion H; subst. left. eexists. split; [reflexivity|].
      now apply rc_is_ok_false.
Qed.

(** A run of the loop in which the events [oks] translate and the next
    event [e] does not: the status is that of [e], the events [oks] are
    stored and the rest of the vector is untouched. *)
Lemma setEvents_loop_fail oks e post : forall pre old RC,
  (length oks <= length old)%nat ->
  Forall (fun e' => conv L M e' = XAIE_OK) oks ->
  conv L M e <> XAIE_OK ->
  setEvents_loop conv L M (oks ++ e :: post) (length pre) RC (pre ++ old) =
    (Some (conv L M e), pre ++ oks ++ drop (length oks) old).
Proof.
  induction oks as [|a oks IH]; intros pre old RC Hlen Hoks He; simpl.
  - apply rc_is_ok_false in He. rewrite He. now rewrite drop_0.
  - inversion Hoks as [|? ? Ha Hoks']; subst.
    rewrite Ha. simpl. destruct old as [|x old]; [simpl in Hlen; lia|].
    rewrite insert_at_boundary.
    replace (S (length pre)) with (length (pre ++ [a]))
      by (rewrite length_app; simpl; lia).
    rewrite IH; [|simpl in Hlen; lia|assumption|assumption].
    simpl. now rewrite <- app_assoc.
Qed.

End TranslationFacts.

(** A freshly constructed object for three or four events turns down every
    [setEvents] call: the count check compares the stored operations, of
    which there are none, with 2. *)
Lemma setEvents_fresh_large_rejected conv L M n vE vOp :
  (2 < n)%nat ->
  setEvents conv (fresh_combo L M n) vE vOp =
    Some (XAIE_INVALID_ARGS, fresh_combo L M n).
Proof.
  intros Hn. unfold setEvents, setEvents_bad_counts. cbn [fresh_combo State Initialized vEvents vOps negb length].
  rewrite length_replicate.
  destruct (Nat.eqb_spec (length vE) n) as [E|E]; [|reflexivity].
  assert ((2 <? length vE)%nat = true) as -> by (apply Nat.ltb_lt; lia).
  cbn. now rewrite orb_true_r.
Qed.

(** On a freshly constructed object the count check lets a call through
    exactly when the object is for two events, two events are passed and at
    most one operation. *)
Lemma setEvents_bad_counts_fresh L M n vE vOp :
  setEvents_bad_counts (fresh_combo L M n) vE vOp = false <->
  length vE = n /\ (n <= 2)%nat /\ (length vOp <= 1)%nat.
Proof.
  unfold setEvents_bad_counts. cbn [fresh_combo vEvents vOps length].
  rewrite length_replicate.
  destruct (Nat.eqb_spec (length vE) n) as [E|E];
    destruct (Nat.ltb_spec 3 (length vOp));
    destruct (Nat.leb_spec (length vE) 2);
    destruct (Nat.ltb_spec 1 (length vOp));
    destruct (Nat.ltb_spec 2 (length vE));
    cbn; split; intros Hc; try discriminate; try reflexivity; lia.
Qed.

(** A fresh two-event object accepts two translatable events with at most
    one operation and becomes configured. *)
Lemma setEvents_fresh_pair_accepted conv L M e0 e1 vOp :
  (length vOp <= 1)%nat ->
  conv L M e0 = XAIE_OK -> conv L M e1 = XAIE_OK ->
  setEvents conv (fresh_combo L M 2) [e0; e1] vOp =
    Some (XAIE_OK,
          mkComboEvent L M (mkRscState true true false) (mkUserRsc L M 0)
            [e0; e1] vOp []).
Proof.
  intros Hop H0 H1. unfold setEvents.
  assert (setEvents_bad_counts (fresh_combo L M 2) [e0; e1] vOp = false) as ->
    by (apply setEvents_bad_counts_fresh; cbn; lia).
  cbn. rewrite H0. cbn. rewrite H1. cbn.
  unfold set_State, set_vOps, set_vEvents. cbn.
  now rewrite push_back_all_nil.
Qed.

(** C2.  An object constructed for 3 events turns down 3 translatable events
    with 2 operations as an invalid argument and stays unconfigured. *)
Theorem setEvents_three_events_rejected :
  XAieComboEvent_new (XAie_TileLoc 1 2) XAIE_CORE_MOD 3 =
    Some (fresh_combo (XAie_TileLoc 1 2) XAIE_CORE_MOD 3) /\
  setEvents conv_accepts_all (fresh_combo (XAie_TileLoc 1 2) XAIE_CORE_MOD 3)
    [10; 11; 12] [0; 1] =
    Some (XAIE_INVALID_ARGS, fresh_combo (XAie_TileLoc 1 2) XAIE_CORE_MOD 3) /\
  Configured (State (fresh_combo (XAie_TileLoc 1 2) XAIE_CORE_MOD 3)) = false.
Proof. repeat split. Qed.

Lemma setEvents_bad_counts_false o vE vOp :
  setEvents_bad_counts o vE vOp = false -> length vE = length (vEvents o).
Proof.
  unfold setEvents_bad_counts. intros H.
  destruct (Nat.eqb_spec (length vE) (length (vEvents o))) as [E|E];
    [exact E | discriminate H].
Qed.

(** C3, as stated, fails on a fresh two-event object: when the second event
    does not translate, the first one has already been stored. *)
Lemma setEvents_failed_translation_keeps_prefix :
  ~ (forall conv o vE vOp k e,
       Initialized (State o) = true ->
       Configured (State o) = false ->
       setEvents_bad_counts o vE vOp = false ->
       vE !! k = Some e ->
       conv (Loc o) (Mod o) e <> XAIE_OK ->
       (forall j e', (j < k)%nat -> vE !! j = Some e' ->
                     conv (Loc o) (Mod o) e' = XAIE_OK) ->
       exists rc o',
         setEvents conv o vE vOp = Some (rc, o') /\
         rc <> XAIE_OK /\
         vEvents o' = vEvents o /\
         Configured (State o') = false /\
         forall outE outOp, getInputEvents o' outE outOp = (XAIE_ERR, outE, outOp)).
Proof.
  intros H.
  destruct (H (conv_rejects 7) (fresh_combo (XAie_TileLoc 0 1) XAIE_CORE_MOD 2)
              [5; 7] [0] 1%nat 7) as (rc & o' & Hs & _ & Hv & _).
  - reflexivity.
  - reflexivity.
  - reflexivity.
  - reflexivity.
  - discriminate.
  - intros [|j] e' Hj He'; [|lia]. inversion He'. reflexivity.
  - cbv in Hs. inversion Hs; subst o'. discriminate Hv.
Qed.

(** C3, amended.  In a [setEvents] call that gets past the two checks and in
    which event [k] is the first that does not translate, the status is the
    one the translation gave; the stored events below index [k] are replaced
    by the new ones, those from [k] on are kept, and nothing else of the
    object changes, the operations and the [Configured] flag included.  On an
    object that was not configured before, [getInputEvents] then reports the
    ordering error and leaves its outputs alone, as it did before the call. *)
Theorem setEvents_failed_translation conv o vE vOp k e :
  Initialized (State o) = true ->
  setEvents_bad_counts o vE vOp = false ->
  vE !! k = Some e ->
  conv (Loc o) (Mod o) e <> XAIE_OK ->
  (forall j e', (j < k)%nat -> vE !! j = Some e' ->
                conv (Loc o) (Mod o) e' = XAIE_OK) ->
  setEvents conv o vE vOp =
    Some (conv (Loc o) (Mod o) e,
          set_vEvents o (take k vE ++ drop k (vEvents o))) /\
  vOps (set_vEvents o (take k vE ++ drop k (vEvents o))) = vOps o /\
  State (set_vEvents o (take k vE ++ drop k (vEvents o))) = State o /\
  (Configured (State o) = false ->
   forall outE outOp,
     getInputEvents (set_vEvents o (take k vE ++ drop k (vEvents o))) outE outOp =
       (XAIE_ERR, outE, outOp) /\
     getInputEvents o outE outOp = (XAIE_ERR, outE, outOp)).
Proof.
  intros Hinit Hcnt Hk He Hpre.
  pose proof (setEvents_bad_counts_false _ _ _ Hcnt) as Hlen.
  pose proof (lookup_lt_Some _ _ _ Hk) as Hlt.
  assert (length (take k vE) = k) as Htk by (rewrite length_take; lia).
  split; [|split; [reflexivity|split; [reflexivity|]]].
  - unfold setEvents. rewrite Hinit, Hcnt. cbn [negb].
    rewrite <- (take_drop_middle vE k e Hk) at 1.
    pose proof (setEvents_loop_fail conv (Loc o) (Mod o) (take k vE) e
                  (drop (S k) vE) [] (vEvents o) None) as Hloop.
    cbn [length app] in Hloop. rewrite Hloop.
    + rewrite Htk. apply rc_is_ok_false in He. now rewrite He.
    + lia.
    + apply Forall_lookup. intros j e' Hj.
      pose proof (lookup_lt_Some _ _ _ Hj) as Hjl. rewrite Htk in Hjl.
      rewrite lookup_take_lt in Hj by exact Hjl. eapply Hpre; eassumption.
    + exact He.
  - intros Hc outE outOp. unfold getInputEvents. cbn [set_vEvents State].
    now rewrite Hc.
Qed.

(** C3, amended, on a fresh two-event object given the events 5 and 7 when 7
    does not translate: the call fails, the object then stores 5 and 0, and
    [getInputEvents] reports the ordering error. *)
Lemma setEvents_failed_translation_witness :
  setEvents (conv_rejects 7) (fresh_combo (XAie_TileLoc 0 1) XAIE_CORE_MOD 2)
    [5; 7] [0] =
    Some (XAIE_INVALID_ARGS,
          set_vEvents (fresh_combo (XAie_TileLoc 0 1) XAIE_CORE_MOD 2) [5; 0]) /\
  getInputEvents
    (set_vEvents (fresh_combo (XAie_TileLoc 0 1) XAIE_CORE_MOD 2) [5; 0]) [] [] =
    (XAIE_ERR, [], []).
Proof.
  pose proof (setEvents_failed_translation (conv_rejects 7)
    (fresh_combo (XAie_TileLoc 0 1) XAIE_CORE_MOD 2) [5; 7] [0] 1%nat 7) as H.
  destruct H as (Hs & _ & _ & Hg).
  - reflexivity.
  - reflexivity.
  - reflexivity.
  - discriminate.
  - intros [|j] e' Hj He'; [|lia]. inversion He'. reflexivity.
  - split; [exact Hs|]. exact (proj1 (Hg eq_refl [] [])).
Defined.

(** C7.  After a [setEvents] call that returned [XAIE_OK], [getInputEvents]
    succeeds and returns the events and the operations of that call, in the
    order in which they were passed. *)
Theorem setEvents_getInputEvents_roundtrip conv o vE vOp o' :
  setEvents conv o vE vOp = Some (XAIE_OK, o') ->
  forall outE outOp, getInputEvents o' outE outOp = (XAIE_OK, vE, vOp).
Proof.
  unfold setEvents. intros H outE outOp.
  destruct (negb (Initialized (State o))); [discriminate|].
  destruct (setEvents_bad_counts o vE vOp) eqn:Hcnt; [discriminate|].
  apply setEvents_bad_counts_false in Hcnt.
  destruct (setEvents_loop conv (Loc o) (Mod o) vE 0 None (vEvents o))
    as [RC vEv] eqn:Hloop.
  destruct RC as [rc|]; [|discriminate].
  destruct (rc_is_ok rc) eqn:Hok.
  - inversion H; subst rc o'; clear H.
    apply (setEvents_loop_inv conv (Loc o) (Mod o) vE [] (vEvents o)) in Hloop;
      [|symmetry; exact Hcnt].
    destruct Hloop as [(rc & Hrc & Hne)|[Hv _]].
    + inversion Hrc; subst rc. now contradiction Hne.
    + cbn [app] in Hv. subst vEv. unfold getInputEvents.
      cbn [set_State set_vOps set_vEvents State Configured vEvents vOps].
      now rewrite !push_back_all_nil.
  - inversion H; subst rc. discriminate Hok.
Qed.

(** C7, on a fresh two-event object given the events 10 and 11 and one
    operation. *)
Lemma setEvents_getInputEvents_roundtrip_witness :
  getInputEvents configured_pair [1; 2; 3] [] = (XAIE_OK, [10; 11], [0]).
Proof.
  apply (setEvents_getInputEvents_roundtrip conv_accepts_all
           (fresh_combo (XAie_TileLoc 0 1) XAIE_CORE_MOD 2) [10; 11] [0]
           configured_pair).
  reflexivity.
Defined.

(** ** Reserving slots *)

(** [_reserve] has one exit, and it reports success. *)
Lemma _reserve_reports_ok R o Dev :
  match _reserve R o Dev with
  | Some (rc, _, _) => rc = XAIE_OK
  | None => True
  end.
Proof.
  unfold _reserve.
  destruct (_reserve_loop R (Loc o) (Mod o) (length (vEvents o)) 0 Dev (vRscs o))
    as [[Dev' vR]|]; [|exact I].
  destruct (vR !! 0%nat); [reflexivity | exact I].
Qed.

(** C1.  A configured two-event core resource at column 0, row 1, whose tile
    has one free slot left (slot 3): the first acquisition takes slot 3, the
    second fails and slot 3 is given back to the pool, but [_reserve] goes on
    and returns [XAIE_OK], with the released slot still listed in [vRscs]. *)
Theorem _reserve_failed_acquisition_reports_ok :
  XAieAllocRsc (mkDevHandle 7 0 0) (XAie_TileLoc 0 1) XAIE_CORE_MOD (R_core_row1 0) =
    (XAIE_OK, mkDevHandle 15 0 0, mkUserRsc (XAie_TileLoc 0 1) XAIE_CORE_MOD 3) /\
  XAieAllocRsc (mkDevHandle 15 0 0) (XAie_TileLoc 0 1) XAIE_CORE_MOD (R_core_row1 1) =
    (XAIE_ERR, mkDevHandle 15 0 0, R_core_row1 1) /\
  _reserve R_core_row1 configured_pair (mkDevHandle 7 0 0) =
    Some (XAIE_OK,
          set_Rsc
            (set_vRscs configured_pair [mkUserRsc (XAie_TileLoc 0 1) XAIE_CORE_MOD 3])
            (mkUserRsc (XAie_TileLoc 0 1) XAIE_CORE_MOD 1),
          mkDevHandle 7 0 0).
Proof. repeat split. Qed.

(** When the tile has no free slot at all, no acquisition succeeds, [vRscs]
    stays empty and [_reserve] reads [vRscs[0]] outside the vector. *)
Lemma _reserve_full_pool_undefined :
  _reserve R_core_row1 configured_pair (mkDevHandle 15 0 0) = None.
Proof. reflexivity. Qed.

(** From an empty pool, [_reserve] gives a four-event resource the slots 0
    to 3 of its tile and the aggregate id 2. *)
Lemma _reserve_quad :
  _reserve R_core_row1 configured_quad (mkDevHandle 0 0 0) =
    Some (XAIE_OK,
          set_State reserved_quad (State configured_quad),
          mkDevHandle 15 0 0).
Proof. reflexivity. Qed.

(** ** Programming the combiners *)

(** The top-level path of [_start] has no rollback.  On a four-event
    resource with three operations, a state that [setEvents] does not
    produce, and a hardware where programming the top-level combiner fails,
    [_start] programs the combiners 0 and 1, fails on combiner 2 and returns
    the error without a single reset call. *)
Theorem _start_top_level_failure_no_rollback :
  _start (list combo_call) (rec_config (fun id => id =? XAIE_EVENT_COMBO2))
    rec_reset reserved_quad [] =
    Some (XAIE_ERR,
          [CallConfig XAIE_EVENT_COMBO0 0 10 11 XAIE_OK;
           CallConfig XAIE_EVENT_COMBO1 1 12 13 XAIE_OK;
           CallConfig XAIE_EVENT_COMBO2 2 10 10 XAIE_ERR]) /\
  left_programmed XAIE_EVENT_COMBO0
    [CallConfig XAIE_EVENT_COMBO0 0 10 11 XAIE_OK;
     CallConfig XAIE_EVENT_COMBO1 1 12 13 XAIE_OK;
     CallConfig XAIE_EVENT_COMBO2 2 10 10 XAIE_ERR] = true /\
  left_programmed XAIE_EVENT_COMBO1
    [CallConfig XAIE_EVENT_COMBO0 0 10 11 XAIE_OK;
     CallConfig XAIE_EVENT_COMBO1 1 12 13 XAIE_OK;
     CallConfig XAIE_EVENT_COMBO2 2 10 10 XAIE_ERR] = true.
Proof. repeat split. Qed.

(** The pairwise loop does roll back: when programming combiner 1 fails on
    the same resource, combiner 0 is reset before the error is returned. *)
Lemma _start_pairwise_failure_rolls_back :
  _start (list combo_call) (rec_config (fun id => id =? XAIE_EVENT_COMBO1))
    rec_reset reserved_quad [] =
    Some (XAIE_ERR,
          [CallConfig XAIE_EVENT_COMBO0 0 10 11 XAIE_OK;
           CallConfig XAIE_EVENT_COMBO1 1 12 13 XAIE_ERR;
           CallReset XAIE_EVENT_COMBO0]) /\
  left_programmed XAIE_EVENT_COMBO0
    [CallConfig XAIE_EVENT_COMBO0 0 10 11 XAIE_OK;
     CallConfig XAIE_EVENT_COMBO1 1 12 13 XAIE_ERR;
     CallReset XAIE_EVENT_COMBO0] = false.
Proof. repeat split. Qed.

(** ** The masked poll of the simulator backend *)

Section MaskPollFacts.

Variable Sim : Type.
Variable ess_Read32 : Sim -> Z -> Z * Sim.
Variable usleep : Z -> Sim -> Sim.
Variables (IOInst : XAie_SimIO) (RegOff Mask Value : Z).

Local Abbreviation poll_hits :=
  (poll_hits Sim ess_Read32 usleep IOInst RegOff Mask Value).

(** The loop started with [n] ticks left at poll number [j]: it makes [m]
    polls, at most [n]; all but the last miss; it succeeds when the last
    one hits, and otherwise uses up all [n] ticks. *)
Lemma MaskPoll_loop_spec s n : forall j acc,
  exists m : nat,
    (m <= n)%nat /\
    snd (MaskPoll_loop Sim ess_Read32 usleep IOInst RegOff Mask Value n
           (sim_after Sim ess_Read32 usleep IOInst RegOff j s) acc) =
      acc ++ map (fun k => read_at Sim ess_Read32 usleep IOInst RegOff k s) (seq j m) /\
    (forall k, (j <= k < j + m - 1)%nat -> ~ poll_hits s k) /\
    ((fst (fst (MaskPoll_loop Sim ess_Read32 usleep IOInst RegOff Mask Value n
                  (sim_after Sim ess_Read32 usleep IOInst RegOff j s) acc))
        = XAIELIB_SUCCESS /\ (1 <= m)%nat /\ poll_hits s (j + m - 1)) \/
     (fst (fst (MaskPoll_loop Sim ess_Read32 usleep IOInst RegOff Mask Value n
                  (sim_after Sim ess_Read32 usleep IOInst RegOff j s) acc))
        = XAIELIB_FAILURE /\ m = n /\
      forall k, (j <= k < j + n)%nat -> ~ poll_hits s k)).
Proof.
  induction n as [|n IH]; intros j acc.
  - exists 0%nat. cbn. rewrite app_nil_r.
    split; [lia|]. split; [reflexivity|]. split; [intros; lia|].
    right. split; [reflexivity|]. split; [reflexivity|]. intros; lia.
  - cbn [MaskPoll_loop].
    pose proof (eq_refl : read_at Sim ess_Read32 usleep IOInst RegOff j s =
      fst (XAie_SimIO_Read32 Sim ess_Read32 IOInst RegOff
             (sim_after Sim ess_Read32 usleep IOInst RegOff j s))) as Hrd.
    pose proof (eq_refl : sim_after Sim ess_Read32 usleep IOInst RegOff (S j) s =
      usleep 1 (snd (XAie_SimIO_Read32 Sim ess_Read32 IOInst RegOff
             (sim_after Sim ess_Read32 usleep IOInst RegOff j s)))) as Hst.
    destruct (XAie_SimIO_Read32 Sim ess_Read32 IOInst RegOff
                (sim_after Sim ess_Read32 usleep IOInst RegOff j s))
      as [v s1] eqn:Hread.
    cbn [fst snd] in Hrd, Hst.
    destruct (Z.eqb_spec (Z.land v Mask) Value) as [Hhit|Hmiss].
    + exists 1%nat. cbn [fst snd seq map]. rewrite Hrd.
      split; [lia|]. split; [reflexivity|]. split; [intros; lia|].
      left. split; [reflexivity|]. split; [lia|].
      unfold poll_hits. replace (j + 1 - 1)%nat with j by lia.
      now rewrite Hrd.
    + rewrite <- Hst. destruct (IH (S j) (acc ++ [v])) as (m & Hm & Hreads & Hbefore & Hend).
      exists (S m). split; [lia|]. split.
      * rewrite Hreads. cbn [seq map]. rewrite Hrd, <- app_assoc. reflexivity.
      * assert (~ poll_hits s j) as Hj by (unfold poll_hits; now rewrite Hrd).
        split.
        -- intros k Hk. destruct (Nat.eq_dec k j) as [->|Hne]; [exact Hj|].
           apply Hbefore. lia.
        -- destruct Hend as [(Hs & Hm1 & Hhit)|(Hf & Hmn & Hnone)].
           ++ left. split; [exact Hs|]. split; [lia|].
              replace (j + S m - 1)%nat with (S j + m - 1)%nat by lia. exact Hhit.
           ++ right. split; [exact Hf|]. split; [lia|].
              intros k Hk. destruct (Nat.eq_dec k j) as [->|Hne]; [exact Hj|].
              apply Hnone. lia.
Qed.

(** The number of ticks the loop starts with. *)
Lemma MaskPoll_budget (TimeOutUs : N) :
  N.to_nat (if (TimeOutUs =? 0)%N then (TimeOutUs + 1)%N else TimeOutUs) =
  N.to_nat (N.max TimeOutUs 1).
Proof.
  destruct (N.eqb_spec TimeOutUs 0) as [->|Hne]; [reflexivity|].
  f_equal. lia.
Qed.

(** C8.  [XAie_SimIO_MaskPoll] succeeds exactly when one of the first
    max(TimeOutUs, 1) polls, taken one [usleep(1)] apart, reads a value
    [v] with [v & Mask == Value]; it fails when none of them does; the
    values it read are those of the successive polls from the first one
    on; and with a timeout of zero it makes exactly one poll. *)
Theorem XAie_SimIO_MaskPoll_succeeds_iff (TimeOutUs : N) (s : Sim) :
  (fst (fst (XAie_SimIO_MaskPoll Sim ess_Read32 usleep IOInst RegOff Mask Value
               TimeOutUs s)) = XAIELIB_SUCCESS <->
   exists k, (k < N.to_nat (N.max TimeOutUs 1))%nat /\ poll_hits s k) /\
  ((forall k, (k < N.to_nat (N.max TimeOutUs 1))%nat -> ~ poll_hits s k) ->
   fst (fst (XAie_SimIO_MaskPoll Sim ess_Read32 usleep IOInst RegOff Mask Value
               TimeOutUs s)) = XAIELIB_FAILURE) /\
  snd (XAie_SimIO_MaskPoll Sim ess_Read32 usleep IOInst RegOff Mask Value
         TimeOutUs s) =
    map (fun k => read_at Sim ess_Read32 usleep IOInst RegOff k s)
        (seq 0 (length (snd (XAie_SimIO_MaskPoll Sim ess_Read32 usleep IOInst
                               RegOff Mask Value TimeOutUs s)))) /\
  (TimeOutUs = 0%N ->
   length (snd (XAie_SimIO_MaskPoll Sim ess_Read32 usleep IOInst RegOff Mask
                  Value TimeOutUs s)) = 1%nat).
Proof.
  unfold XAie_SimIO_MaskPoll. rewrite MaskPoll_budget.
  destruct (MaskPoll_loop_spec s (N.to_nat (N.max TimeOutUs 1)) 0 [])
    as (m & Hm & Hreads & Hbefore & Hend).
  cbn [sim_after app] in Hreads, Hend.
  assert (Hlen : length (snd (MaskPoll_loop Sim ess_Read32 usleep IOInst RegOff
                   Mask Value (N.to_nat (N.max TimeOutUs 1)) s [])) = m)
    by (rewrite Hreads, length_map, length_seq; reflexivity).
  split; [|split; [|split]].
  - split.
    + intros Hs. destruct Hend as [(_ & Hm1 & Hhit)|(Hf & _ & _)].
      * exists (0 + m - 1)%nat. split; [lia | exact Hhit].
      * rewrite Hs in Hf. discriminate.
    + intros (k & Hk & Hhit). destruct Hend as [(Hs & _ & _)|(_ & _ & Hnone)].
      * exact Hs.
      * exfalso. apply (Hnone k); [lia | exact Hhit].
  - intros Hnone. destruct Hend as [(_ & Hm1 & Hhit)|(Hf & _ & _)]; [|exact Hf].
    exfalso. apply (Hnone (0 + m - 1)%nat); [lia | exact Hhit].
  - rewrite Hlen. exact Hreads.
  - intros ->. rewrite Hlen. change (N.to_nat (N.max 0 1)) with 1%nat in *.
    destruct Hend as [(_ & Hm1 & _)|(_ & Hmn & _)]; lia.
Qed.

(** C9.  [XAie_SimIO_MaskPoll] returns after at least one and at most
    max(TimeOutUs, 1) register reads, whatever the simulator answers; a
    failing call makes exactly max(TimeOutUs, 1) of them. *)
Theorem XAie_SimIO_MaskPoll_bounded_reads (TimeOutUs : N) (s : Sim) :
  (1 <= length (snd (XAie_SimIO_MaskPoll Sim ess_Read32 usleep IOInst RegOff
                       Mask Value TimeOutUs s))
     <= N.to_nat (N.max TimeOutUs 1))%nat /\
  (fst (fst (XAie_SimIO_MaskPoll Sim ess_Read32 usleep IOInst RegOff Mask Value
               TimeOutUs s)) = XAIELIB_FAILURE ->
   length (snd (XAie_SimIO_MaskPoll Sim ess_Read32 usleep IOInst RegOff Mask
                  Value TimeOutUs s)) = N.to_nat (N.max TimeOutUs 1)).
Proof.
  unfold XAie_SimIO_MaskPoll. rewrite MaskPoll_budget.
  destruct (MaskPoll_loop_spec s (N.to_nat (N.max TimeOutUs 1)) 0 [])
    as (m & Hm & Hreads & _ & Hend).
  cbn [sim_after app] in Hreads, Hend.
  rewrite Hreads, length_map, length_seq.
  assert (1 <= N.to_nat (N.max TimeOutUs 1))%nat by lia.
  destruct Hend as [(Hs & Hm1 & _)|(Hf & Hmn & _)].
  - split; [lia|]. intros Hf. rewrite Hs in Hf. discriminate.
  - split; [lia|]. intros _. exact Hmn.
Qed.

End MaskPollFacts.

(** A register that reads 0 twice and 5 from then on, polled for the value 5
    under the mask 7: a timeout of 3 succeeds on the third read, a timeout
    of 2 fails after two reads, and a timeout of 0 makes a single read. *)
Example MaskPoll_counter_register :
  XAie_SimIO_MaskPoll nat (counter_read 2) counter_usleep (mkSimIO 0) 16 7 5 3 0%nat =
    (XAIELIB_SUCCESS, 2%nat, [0; 0; 5]) /\
  XAie_SimIO_MaskPoll nat (counter_read 2) counter_usleep (mkSimIO 0) 16 7 5 2 0%nat =
    (XAIELIB_FAILURE, 2%nat, [0; 0]) /\
  XAie_SimIO_MaskPoll nat (counter_read 2) counter_usleep (mkSimIO 0) 16 7 5 0 0%nat =
    (XAIELIB_FAILURE, 1%nat, [0]).
Proof. repeat split. Qed.

(** C8, on that register with a timeout of 3: the third poll hits, so the
    call succeeds. *)
Lemma XAie_SimIO_MaskPoll_succeeds_iff_witness :
  fst (fst (XAie_SimIO_MaskPoll nat (counter_read 2) counter_usleep (mkSimIO 0)
              16 7 5 3 0%nat)) = XAIELIB_SUCCESS.
Proof.
  apply (proj2 (proj1 (XAie_SimIO_MaskPoll_succeeds_iff nat (counter_read 2)
           counter_usleep (mkSimIO 0) 16 7 5 3%N 0%nat))).
  exists 2%nat. split; [cbn; lia | reflexivity].
Defined.

(** C9, on that register with a timeout of 0: exactly one read. *)
Lemma XAie_SimIO_MaskPoll_bounded_reads_witness :
  (1 <= length (snd (XAie_SimIO_MaskPoll nat (counter_read 2) counter_usleep
                       (mkSimIO 0) 16 7 5 0 0%nat)) <= 1)%nat.
Proof.
  exact (proj1 (XAie_SimIO_MaskPoll_bounded_reads nat (counter_read 2)
           counter_usleep (mkSimIO 0) 16 7 5 0%N 0%nat)).
Defined.

(** * Further properties of the slot pool *)

Lemma setbit_negative a n : n < 0 -> Z.setbit a n = a.
Proof.
  intros Hn. rewrite Z.setbit_spec', Z.pow_neg_r by exact Hn. apply Z.lor_0_r.
Qed.

Lemma clearbit_setbit a n :
  0 <= n -> Z.testbit a n = false -> Z.clearbit (Z.setbit a n) n = a.
Proof.
  intros Hn Ha. apply Z.bits_inj'. intros m Hm.
  rewrite Z.clearbit_eqb, Z.setbit_eqb by exact Hn.
  destruct (Z.eqb_spec n m) as [->|Hne]; cbn.
  - now rewrite Ha.
  - now rewrite andb_true_r.
Qed.

Lemma bits_ptr_eq_dec (p q : bits_ptr) : {p = q} + {p <> q}.
Proof. decide equality. Qed.

Lemma store_store p v w Dev : store_bits p v (store_bits p w Dev) = store_bits p v Dev.
Proof. destruct p; reflexivity. Qed.

(** The three outcomes of [XAieAllocRsc]: turned down by the opening test,
    a bit of the range taken, or the range found full. *)
Lemma XAieAllocRsc_cases Dev L M R :
  (XAieAllocRsc Dev L M R = (XAIE_INVALID_ARGS, Dev, R) /\
   tile_mod_mismatch (Row (rsc_Loc R)) (rsc_Mod R) = true) \/
  (XAieAllocRsc Dev L M R = (XAIE_ERR, Dev, R) /\
   tile_mod_mismatch (Row (rsc_Loc R)) (rsc_Mod R) = false) \/
  (exists bit,
     tile_mod_mismatch (Row (rsc_Loc R)) (rsc_Mod R) = false /\
     0 <= bit /\
     first_clear_in (load_bits (spec_pool M) Dev) (spec_scan_base L M) 4 bit /\
     XAieAllocRsc Dev L M R =
       (XAIE_OK,
        store_bits (spec_pool M) (Z.setbit (load_bits (spec_pool M) Dev) bit) Dev,
        mkUserRsc L M (bit - spec_scan_base L M))).
Proof.
  destruct (tile_mod_mismatch (Row (rsc_Loc R)) (rsc_Mod R)) eqn:Hg.
  - left. split; [|reflexivity]. unfold XAieAllocRsc. now rewrite Hg.
  - right. rewrite (XAieAllocRsc_unfold _ _ _ _ Hg). unfold alloc_rsc_bit.
    change (Z.to_nat 4) with 4%nat.
    destruct (first_free_bit (load_bits (spec_pool M) Dev) (spec_scan_base L M) 4)
      as [bit|] eqn:E.
    + apply first_free_bit_some in E. destruct (Z.ltb_spec bit 0) as [Hneg|Hpos].
      * left. split; [|reflexivity].
        now rewrite (setbit_negative _ _ Hneg), store_load_same.
      * right. exists bit. repeat (split; [assumption || reflexivity|]). reflexivity.
    + left. split; [|reflexivity]. change (-1 <? 0) with true. cbv iota.
      now rewrite store_load_same.
Qed.

(** X1.  Whatever its arguments and its outcome, [XAieAllocRsc] never clears
    a bit, and the only bit it can set lies in the 4-bit range of the tile,
    in the bitmap of the module. *)
Theorem XAieAllocRsc_frame Dev L M R p q :
  (Z.testbit (load_bits p Dev) q = true ->
   Z.testbit (load_bits p (snd (fst (XAieAllocRsc Dev L M R)))) q = true) /\
  (Z.testbit (load_bits p (snd (fst (XAieAllocRsc Dev L M R)))) q = true ->
   Z.testbit (load_bits p Dev) q = true \/
   (p = spec_pool M /\ spec_scan_base L M <= q < spec_scan_base L M + 4)).
Proof.
  destruct (XAieAllocRsc_cases Dev L M R)
    as [[-> _]|[[-> _]|(bit & _ & Hpos & (Hr & _ & _) & ->)]]; cbn [fst snd].
  - tauto.
  - tauto.
  - destruct (bits_ptr_eq_dec p (spec_pool M)) as [->|Hne].
    + rewrite load_store_same, Z.setbit_eqb by exact Hpos.
      destruct (Z.eqb_spec bit q) as [->|Hbq]; cbn; [|tauto].
      split; [reflexivity|]. intros _. right. split; [reflexivity | exact Hr].
    + rewrite load_store_other by congruence. tauto.
Qed.

(** X2.  A slot that [XAieAllocRsc] hands out was free: when the call returns
    [XAIE_OK], the record carries the location and module of the request and
    an id in 0..3, the bit of that slot was clear before the call and is set
    after it. *)
Theorem XAieAllocRsc_ok_slot_was_free Dev L M R Dev' R' :
  XAieAllocRsc Dev L M R = (XAIE_OK, Dev', R') ->
  rsc_Loc R' = L /\ rsc_Mod R' = M /\ 0 <= RscId R' <= 3 /\
  0 <= slot_bit R' /\
  Z.testbit (load_bits (spec_pool M) Dev) (slot_bit R') = false /\
  Z.testbit (load_bits (spec_pool M) Dev') (slot_bit R') = true.
Proof.
  intros H.
  destruct (XAieAllocRsc_cases Dev L M R)
    as [[E _]|[[E _]|(bit & _ & Hpos & (Hr & Hc & _) & E)]];
    rewrite E in H; inversion H; subst Dev' R'; clear H E.
  unfold slot_bit. cbn [rsc_Loc rsc_Mod RscId].
  replace (spec_scan_base L M + (bit - spec_scan_base L M)) with bit by lia.
  repeat (split; [reflexivity || lia || assumption|]).
  rewrite load_store_same. now apply Z.setbit_eq.
Qed.

(** X2, at the core tile in column 2, row 3 (base 72) with slots 0 and 1
    taken. *)
Lemma XAieAllocRsc_ok_slot_was_free_witness :
  Z.testbit (3 * 2 ^ 72) 74 = false /\
  Z.testbit (Z.setbit (3 * 2 ^ 72) 74) 74 = true.
Proof.
  pose proof (XAieAllocRsc_ok_slot_was_free
    (mkDevHandle (3 * 2 ^ 72) 0 0) (XAie_TileLoc 2 3) XAIE_CORE_MOD
    (mkUserRsc (XAie_TileLoc 2 3) XAIE_CORE_MOD 0)
    (mkDevHandle (Z.setbit (3 * 2 ^ 72) 74) 0 0)
    (mkUserRsc (XAie_TileLoc 2 3) XAIE_CORE_MOD 2) eq_refl) as H.
  exact (proj2 (proj2 (proj2 (proj2 H)))).
Defined.

(** What [XAieReleaseRsc] does to a record whose row and module agree. *)
Lemma XAieReleaseRsc_unfold Dev R :
  tile_mod_mismatch (Row (rsc_Loc R)) (rsc_Mod R) = false ->
  XAieReleaseRsc Dev R =
    store_bits (spec_pool (rsc_Mod R))
      (Z.clearbit (load_bits (spec_pool (rsc_Mod R)) Dev) (slot_bit R)) Dev.
Proof.
  intros Hg. unfold XAieReleaseRsc, slot_bit, clear_rsc_bit. rewrite Hg.
  destruct (rsc_Mod R); reflexivity.
Qed.

(** X3.  Acquire, then release: when the request pairs row 0 with the
    interface module or another row with the core or memory module, releasing
    the record that a successful [XAieAllocRsc] returned gives back the
    bitmaps as they were before the allocation. *)
Theorem XAieAllocRsc_release_roundtrip Dev L M R Dev' R' :
  tile_mod_mismatch (Row L) M = false ->
  XAieAllocRsc Dev L M R = (XAIE_OK, Dev', R') ->
  XAieReleaseRsc Dev' R' = Dev.
Proof.
  intros Hpair H.
  destruct (XAieAllocRsc_cases Dev L M R)
    as [[E _]|[[E _]|(bit & _ & Hpos & (Hr & Hc & _) & E)]];
    rewrite E in H; inversion H; subst Dev' R'; clear H E.
  rewrite XAieReleaseRsc_unfold by exact Hpair.
  unfold slot_bit. cbn [rsc_Loc rsc_Mod RscId].
  replace (spec_scan_base L M + (bit - spec_scan_base L M)) with bit by lia.
  rewrite load_store_same, store_store, clearbit_setbit by assumption.
  apply store_load_same.
Qed.

(** X3, for the shim tile of column 5 with slot 0 taken: slot 1 (bit 21) is
    acquired and released again. *)
Lemma XAieAllocRsc_release_roundtrip_witness :
  XAieReleaseRsc (mkDevHandle 0 0 (3 * 2 ^ 20))
    (mkUserRsc (XAie_TileLoc 5 0) XAIE_PL_MOD 1) = mkDevHandle 0 0 (2 ^ 20).
Proof.
  apply (XAieAllocRsc_release_roundtrip (mkDevHandle 0 0 (2 ^ 20))
           (XAie_TileLoc 5 0) XAIE_PL_MOD
           (mkUserRsc (XAie_TileLoc 5 0) XAIE_PL_MOD 0)).
  - reflexivity.
  - reflexivity.
Defined.

(** X4.  A slot acquired for a request whose row and module do not agree is
    never given back: [XAieReleaseRsc] turns down the record that
    [XAieAllocRsc] returned, and the bit stays set. *)
Theorem XAieAllocRsc_mismatch_leaks Dev L M R Dev' R' :
  tile_mod_mismatch (Row L) M = true ->
  XAieAllocRsc Dev L M R = (XAIE_OK, Dev', R') ->
  XAieReleaseRsc Dev' R' = Dev' /\
  Z.testbit (load_bits (spec_pool M) (XAieReleaseRsc Dev' R')) (slot_bit R') = true.
Proof.
  intros Hpair H.
  destruct (XAieAllocRsc_cases Dev L M R)
    as [[E _]|[[E _]|(bit & _ & Hpos & _ & E)]];
    rewrite E in H; inversion H; subst Dev' R'; clear H E.
  assert (forall D, XAieReleaseRsc D (mkUserRsc L M (bit - spec_scan_base L M)) = D)
    as E by (intros D; unfold XAieReleaseRsc; cbn [rsc_Loc rsc_Mod]; now rewrite Hpair).
  split; [apply E|]. rewrite E. unfold slot_bit. cbn [rsc_Loc rsc_Mod RscId].
  replace (spec_scan_base L M + (bit - spec_scan_base L M)) with bit by lia.
  rewrite load_store_same. now apply Z.setbit_eq.
Qed.

(** X4, for a core request at row 0 of column 1: bit 28 is taken and the
    release of the returned record leaves it set. *)
Lemma XAieAllocRsc_mismatch_leaks_witness :
  XAieReleaseRsc (mkDevHandle (2 ^ 28) 0 0)
    (mkUserRsc (XAie_TileLoc 1 0) XAIE_CORE_MOD 0) = mkDevHandle (2 ^ 28) 0 0.
Proof.
  apply (proj1 (XAieAllocRsc_mismatch_leaks (mkDevHandle 0 0 0)
           (XAie_TileLoc 1 0) XAIE_CORE_MOD
           (mkUserRsc (XAie_TileLoc 0 1) XAIE_CORE_MOD 0)
           (mkDevHandle (2 ^ 28) 0 0)
           (mkUserRsc (XAie_TileLoc 1 0) XAIE_CORE_MOD 0) eq_refl eq_refl)).
Defined.

(** X5.  An allocation at one tile does not touch the slots of another: for
    the interface module and tiles in different columns, and for the core and
    memory modules and different tiles in rows 1 to 8, every bit of the range
    of the other tile is as it was. *)
Theorem XAieAllocRsc_other_tile_untouched Dev L M R L2 q :
  (M = XAIE_PL_MOD -> Col L <> Col L2) ->
  (M <> XAIE_PL_MOD ->
   1 <= Row L <= 8 /\ 1 <= Row L2 <= 8 /\ (Col L <> Col L2 \/ Row L <> Row L2)) ->
  spec_scan_base L2 M <= q < spec_scan_base L2 M + 4 ->
  Z.testbit (load_bits (spec_pool M) (snd (fst (XAieAllocRsc Dev L M R)))) q =
  Z.testbit (load_bits (spec_pool M) Dev) q.
Proof.
  intros Hpl Hcm Hq.
  destruct (XAieAllocRsc_cases Dev L M R)
    as [[-> _]|[[-> _]|(bit & _ & Hpos & (Hr & _ & _) & ->)]]; cbn [fst snd];
    try reflexivity.
  rewrite load_store_same. apply Z.setbit_neq; [exact Hpos|].
  destruct M; cbn [spec_scan_base] in *.
  - destruct Hcm as (H1 & H2 & H3); [discriminate|]. lia.
  - destruct Hcm as (H1 & H2 & H3); [discriminate|]. lia.
  - specialize (Hpl eq_refl). lia.
Qed.

(** X5, for the core tiles (0,1) and (0,2): taking slot 0 of the first
    leaves bit 4, the first slot of the second, clear. *)
Lemma XAieAllocRsc_other_tile_untouched_witness :
  Z.testbit (load_bits CoreBits (snd (fst (XAieAllocRsc (mkDevHandle 0 0 0)
      (XAie_TileLoc 0 1) XAIE_CORE_MOD
      (mkUserRsc (XAie_TileLoc 0 1) XAIE_CORE_MOD 0))))) 4 = false.
Proof.
  apply (XAieAllocRsc_other_tile_untouched (mkDevHandle 0 0 0)
           (XAie_TileLoc 0 1) XAIE_CORE_MOD
           (mkUserRsc (XAie_TileLoc 0 1) XAIE_CORE_MOD 0) (XAie_TileLoc 0 2) 4).
  - discriminate.
  - intros _. cbn. lia.
  - cbn. lia.
Defined.

(** X6.  The offset arithmetic counts 8 rows per column: for the core and
    memory modules the tile in row r + 8 of a column is given the slots of
    the tile in row r of the next column, so the two requests have the same
    effect on the bitmaps and return the same slot id. *)
Theorem XAieAllocRsc_row_aliasing Dev c r M R :
  M <> XAIE_PL_MOD ->
  snd (fst (XAieAllocRsc Dev (XAie_TileLoc c (r + 8)) M R)) =
    snd (fst (XAieAllocRsc Dev (XAie_TileLoc (c + 1) r) M R)) /\
  fst (fst (XAieAllocRsc Dev (XAie_TileLoc c (r + 8)) M R)) =
    fst (fst (XAieAllocRsc Dev (XAie_TileLoc (c + 1) r) M R)) /\
  RscId (snd (XAieAllocRsc Dev (XAie_TileLoc c (r + 8)) M R)) =
    RscId (snd (XAieAllocRsc Dev (XAie_TileLoc (c + 1) r) M R)).
Proof.
  intros HM. unfold XAieAllocRsc.
  destruct (tile_mod_mismatch (Row (rsc_Loc R)) (rsc_Mod R)); [repeat split|].
  destruct M; [| |contradiction]; cbn [mod_eqb Col Row rc_is_ok];
    replace ((c * 8 + (r + 8 - 1)) * 4) with (((c + 1) * 8 + (r - 1)) * 4) by lia;
    destruct (alloc_rsc_bit _ _ _) as [bit bits'];
    destruct (bit <? 0); repeat split.
Qed.

(** X6, for the core tiles (0,9) and (1,1), which share bit 32. *)
Lemma XAieAllocRsc_row_aliasing_witness :
  snd (fst (XAieAllocRsc (mkDevHandle 0 0 0) (XAie_TileLoc 0 (1 + 8)) XAIE_CORE_MOD
              (mkUserRsc (XAie_TileLoc 0 1) XAIE_CORE_MOD 0))) =
  snd (fst (XAieAllocRsc (mkDevHandle 0 0 0) (XAie_TileLoc (0 + 1) 1) XAIE_CORE_MOD
              (mkUserRsc (XAie_TileLoc 0 1) XAIE_CORE_MOD 0))).
Proof.
  apply (proj1 (XAieAllocRsc_row_aliasing (mkDevHandle 0 0 0) 0 1 XAIE_CORE_MOD
                  (mkUserRsc (XAie_TileLoc 0 1) XAIE_CORE_MOD 0) ltac:(discriminate))).
Defined.

(** X7.  Releasing a record whose row and module agree clears the bit of its
    slot and nothing else: every other bit of the three bitmaps is as it
    was. *)
Theorem XAieReleaseRsc_clears_one_bit Dev R :
  tile_mod_mismatch (Row (rsc_Loc R)) (rsc_Mod R) = false ->
  Z.testbit (load_bits (spec_pool (rsc_Mod R)) (XAieReleaseRsc Dev R)) (slot_bit R)
    = false /\
  forall p q, p <> spec_pool (rsc_Mod R) \/ q <> slot_bit R ->
    Z.testbit (load_bits p (XAieReleaseRsc Dev R)) q = Z.testbit (load_bits p Dev) q.
Proof.
  intros Hg. rewrite XAieReleaseRsc_unfold by exact Hg. split.
  - rewrite load_store_same. apply Z.clearbit_eq.
  - intros p q Hpq.
    destruct (bits_ptr_eq_dec p (spec_pool (rsc_Mod R))) as [->|Hne].
    + rewrite load_store_same. apply Z.clearbit_neq.
      destruct Hpq as [Hp|Hq]; [contradiction | congruence].
    + rewrite load_store_other by congruence. reflexivity.
Qed.

(** X7, for slot 1 of the memory tile in column 0, row 1, with the slots 0
    to 2 taken: bit 1 is cleared and bit 2 stays set. *)
Lemma XAieReleaseRsc_clears_one_bit_witness :
  Z.testbit (load_bits MemBits (XAieReleaseRsc (mkDevHandle 0 7 0)
    (mkUserRsc (XAie_TileLoc 0 1) XAIE_MEM_MOD 1))) 1 = false /\
  Z.testbit (load_bits MemBits (XAieReleaseRsc (mkDevHandle 0 7 0)
    (mkUserRsc (XAie_TileLoc 0 1) XAIE_MEM_MOD 1))) 2 = true.
Proof.
  pose proof (XAieReleaseRsc_clears_one_bit (mkDevHandle 0 7 0)
    (mkUserRsc (XAie_TileLoc 0 1) XAIE_MEM_MOD 1) eq_refl) as [H1 H2].
  split; [exact H1|].
  rewrite (H2 MemBits 2); [reflexivity|].
  right. cbv. discriminate.
Defined.

(** * Further properties of [_reserve] and [_release] *)

Lemma testbit_fold_setbit bs : forall a m,
  Forall (fun b => 0 <= b) bs ->
  Z.testbit (fold_left Z.setbit bs a) m =
    Z.testbit a m || existsb (fun b => b =? m) bs.
Proof.
  induction bs as [|b bs IH]; intros a m Hbs; cbn.
  - now rewrite orb_false_r.
  - inversion Hbs as [|? ? Hb Hbs']; subst.
    rewrite IH by exact Hbs'. rewrite Z.setbit_eqb by exact Hb.
    destruct (b =? m), (Z.testbit a m); reflexivity.
Qed.

Lemma testbit_fold_clearbit bs : forall a m,
  Z.testbit (fold_left Z.clearbit bs a) m =
    Z.testbit a m && negb (existsb (fun b => b =? m) bs).
Proof.
  induction bs as [|b bs IH]; intros a m; cbn.
  - now rewrite andb_true_r.
  - rewrite IH, Z.clearbit_eqb.
    destruct (b =? m), (Z.testbit a m), (existsb (fun b0 => b0 =? m) bs);
      reflexivity.
Qed.

(** Setting bits that were clear and clearing them again gives the bitmap
    back. *)
Lemma fold_clearbit_setbit bs a :
  Forall (fun b => 0 <= b /\ Z.testbit a b = false) bs ->
  fold_left Z.clearbit bs (fold_left Z.setbit bs a) = a.
Proof.
  intros Hbs. apply Z.bits_inj'. intros m Hm.
  rewrite testbit_fold_clearbit, testbit_fold_setbit
    by (eapply Forall_impl; [exact Hbs | intros b [Hb _]; exact Hb]).
  destruct (existsb (fun b => b =? m) bs) eqn:E; cbn.
  - apply existsb_exists in E. destruct E as (b & Hin & Hb).
    apply Z.eqb_eq in Hb. subst b.
    rewrite Forall_forall in Hbs. apply list_elem_of_In in Hin.
    destruct (Hbs m Hin) as [_ Hclr]. rewrite Hclr. reflexivity.
  - now rewrite orb_false_r, andb_true_r.
Qed.

Lemma free_slots_full bits base :
  free_slots bits base = 0%nat -> all_set_in bits base 4.
Proof.
  unfold free_slots, free_bit. intros H q Hq.
  assert (q = base \/ q = base + 1 \/ q = base + 2 \/ q = base + 3)
    as [-> | [-> | [-> | ->]]] by lia;
    destruct (Z.testbit bits base), (Z.testbit bits (base + 1)),
             (Z.testbit bits (base + 2)), (Z.testbit bits (base + 3));
    cbn in H; try reflexivity; lia.
Qed.

Lemma free_slots_setbit bits base bit :
  0 <= bit -> base <= bit < base + 4 -> Z.testbit bits bit = false ->
  (free_slots (Z.setbit bits bit) base + 1 = free_slots bits base)%nat.
Proof.
  intros Hpos Hr Hc. unfold free_slots, free_bit.
  rewrite !Z.setbit_eqb by exact Hpos.
  assert (bit = base \/ bit = base + 1 \/ bit = base + 2 \/ bit = base + 3)
    as [-> | [-> | [-> | ->]]] by lia; rewrite Hc;
    repeat match goal with
    | |- context [?a =? ?b] =>
        destruct (Z.eqb_spec a b); [try lia|]; cbn [orb]
    end;
    try (exfalso; lia);
    destruct (Z.testbit bits base), (Z.testbit bits (base + 1)),
             (Z.testbit bits (base + 2)), (Z.testbit bits (base + 3));
    cbn; try lia; discriminate.
Qed.

Section ReserveFacts.

Variable R_uninit : nat -> XAie_UserRsc.
Variables (L : XAie_LocType) (M : XAie_ModuleType).

Hypothesis R_passes : forall i,
  tile_mod_mismatch (Row (rsc_Loc (R_uninit i))) (rsc_Mod (R_uninit i)) = false.
Hypothesis base_nonneg : 0 <= spec_scan_base L M.

Local Abbreviation pool := (spec_pool M).
Local Abbreviation base := (spec_scan_base L M).

(** An acquisition succeeds as soon as the tile has a free slot. *)
Lemma XAieAllocRsc_free_slot Dev i :
  (1 <= free_slots (load_bits pool Dev) base)%nat ->
  exists bit,
    first_clear_in (load_bits pool Dev) base 4 bit /\
    XAieAllocRsc Dev L M (R_uninit i) =
      (XAIE_OK, store_bits pool (Z.setbit (load_bits pool Dev) bit) Dev,
       mkUserRsc L M (bit - base)).
Proof.
  intros Hfree. rewrite (XAieAllocRsc_unfold _ _ _ _ (R_passes i)).
  unfold alloc_rsc_bit. change (Z.to_nat 4) with 4%nat.
  destruct (first_free_bit (load_bits pool Dev) base 4) as [bit|] eqn:E.
  - apply first_free_bit_some in E. exists bit. split; [exact E|].
    destruct E as (Hr & _ & _).
    assert ((bit <? 0) = false) as -> by lia. reflexivity.
  - apply first_free_bit_none in E. exfalso.
    unfold free_slots, free_bit in Hfree.
    rewrite !E in Hfree by lia. cbn in Hfree. lia.
Qed.

(** With at least [n] free slots the loop of [_reserve] acquires [n] of
    them, one after the other. *)
Lemma _reserve_loop_enough n : forall i Dev vR,
  (n <= free_slots (load_bits pool Dev) base)%nat ->
  exists new,
    _reserve_loop R_uninit L M n i Dev vR =
      Some (store_bits pool
              (fold_left Z.setbit (map slot_bit new) (load_bits pool Dev)) Dev,
            vR ++ new) /\
    length new = n /\
    Forall (fun r => rsc_Loc r = L /\ rsc_Mod r = M /\ 0 <= RscId r <= 3 /\
                     Z.testbit (load_bits pool Dev) (slot_bit r) = false) new /\
    NoDup (map RscId new) /\
    (free_slots (fold_left Z.setbit (map slot_bit new) (load_bits pool Dev)) base
       + n = free_slots (load_bits pool Dev) base)%nat.
Proof.
  induction n as [|n IH]; intros i Dev vR Hfree.
  - exists []. cbn. rewrite store_load_same, app_nil_r.
    repeat split; try constructor. lia.
  - destruct (XAieAllocRsc_free_slot Dev i) as (bit & Hbit & Halloc); [lia|].
    pose proof Hbit as (Hr & Hc & _).
    assert (0 <= bit) as Hpos by lia.
    pose proof (free_slots_setbit _ _ _ Hpos Hr Hc) as Hdec.
    cbn [_reserve_loop]. rewrite Halloc. cbn [rc_is_ok].
    destruct (IH (S i)
                (store_bits pool (Z.setbit (load_bits pool Dev) bit) Dev)
                (push_back vR (mkUserRsc L M (bit - base))))
      as (new & Hloop & Hlen & Hall & Hnd & Hcount).
    { rewrite load_store_same. lia. }
    rewrite load_store_same in Hloop, Hall, Hcount. rewrite store_store in Hloop.
    assert (slot_bit (mkUserRsc L M (bit - base)) = bit) as Hsb
      by (unfold slot_bit; cbn; lia).
    exists (mkUserRsc L M (bit - base) :: new).
    cbn [map fold_left length]. rewrite Hsb.
    split; [rewrite Hloop; unfold push_back; now rewrite <- app_assoc|].
    split; [now rewrite Hlen|].
    assert (Hnew : Forall (fun r => rsc_Loc r = L /\ rsc_Mod r = M /\
              0 <= RscId r <= 3 /\
              Z.testbit (load_bits pool Dev) (slot_bit r) = false /\
              slot_bit r <> bit) new).
    { eapply Forall_impl; [exact Hall|]. intros r (HL & HM & Hid & Hclr).
      rewrite Z.setbit_eqb in Hclr by lia.
      apply orb_false_iff in Hclr. destruct Hclr as [Hne Hclr].
      apply Z.eqb_neq in Hne.
      split; [exact HL|]. split; [exact HM|]. split; [exact Hid|].
      split; [exact Hclr | congruence]. }
    split; [|split].
    + constructor.
      * cbn [rsc_Loc rsc_Mod RscId]. rewrite Hsb.
        split; [reflexivity|]. split; [reflexivity|]. split; [lia | exact Hc].
      * eapply Forall_impl; [exact Hnew|].
        intros r (HL & HM & Hid & Hclr & _). auto.
    + apply NoDup_cons_2; [|exact Hnd].
      cbn [RscId]. intros Hin. apply list_elem_of_In, in_map_iff in Hin.
      destruct Hin as (r & Hid & Hin). rewrite Forall_forall in Hnew.
      apply list_elem_of_In in Hin.
      destruct (Hnew r Hin) as (HL & HM & _ & _ & Hne).
      apply Hne. unfold slot_bit. rewrite HL, HM, Hid. lia.
    + lia.
Qed.

(** Releasing records of the tile, one after the other, clears their bits. *)
Lemma fold_XAieReleaseRsc (rs : list XAie_UserRsc) : forall Dev,
  tile_mod_mismatch (Row L) M = false ->
  Forall (fun r => rsc_Loc r = L /\ rsc_Mod r = M) rs ->
  fold_left XAieReleaseRsc rs Dev =
    store_bits pool (fold_left Z.clearbit (map slot_bit rs) (load_bits pool Dev)) Dev.
Proof.
  induction rs as [|r rs IH]; intros Dev Hpair Hrs; cbn.
  - now rewrite store_load_same.
  - apply Forall_cons in Hrs. destruct Hrs as [[HL HM] Hrs'].
    rewrite IH by assumption.
    rewrite XAieReleaseRsc_unfold by (rewrite HL, HM; exact Hpair).
    rewrite HM. now rewrite load_store_same, store_store.
Qed.

End ReserveFacts.

(** X8.  [_reserve] on a resource that holds no slot, when the tile has at
    least as many free slots as the resource has events (and at least one
    event), and the opening test of [XAieAllocRsc] lets every call through:
    it returns [XAIE_OK] with one slot per event.  The slots are of the
    resource's tile and module, their ids lie in 0..3 and are pairwise
    different, each was free before and is taken after, the number of free
    slots of the tile drops by the number of events, the other bitmaps and
    the configuration of the resource are untouched, and the aggregate id is
    0, 1 or 2. *)
Theorem _reserve_enough_slots R o Dev :
  (forall i, tile_mod_mismatch (Row (rsc_Loc (R i))) (rsc_Mod (R i)) = false) ->
  0 <= spec_scan_base (Loc o) (Mod o) ->
  vRscs o = [] ->
  (1 <= length (vEvents o)
     <= free_slots (load_bits (spec_pool (Mod o)) Dev)
                   (spec_scan_base (Loc o) (Mod o)))%nat ->
  exists o' Dev',
    _reserve R o Dev = Some (XAIE_OK, o', Dev') /\
    length (vRscs o') = length (vEvents o) /\
    Forall (fun r =>
              rsc_Loc r = Loc o /\ rsc_Mod r = Mod o /\ 0 <= RscId r <= 3 /\
              Z.testbit (load_bits (spec_pool (Mod o)) Dev) (slot_bit r) = false /\
              Z.testbit (load_bits (spec_pool (Mod o)) Dev') (slot_bit r) = true)
           (vRscs o') /\
    NoDup (map RscId (vRscs o')) /\
    (free_slots (load_bits (spec_pool (Mod o)) Dev')
                (spec_scan_base (Loc o) (Mod o)) + length (vEvents o) =
     free_slots (load_bits (spec_pool (Mod o)) Dev)
                (spec_scan_base (Loc o) (Mod o)))%nat /\
    (forall p, p <> spec_pool (Mod o) -> load_bits p Dev' = load_bits p Dev) /\
    vEvents o' = vEvents o /\ vOps o' = vOps o /\ State o' = State o /\
    0 <= RscId (Rsc o') <= 2.
Proof.
  intros HR Hbase Hempty [Hone Hfree].
  destruct (_reserve_loop_enough R (Loc o) (Mod o) HR Hbase
              (length (vEvents o)) 0 Dev [] Hfree)
    as (new & Hloop & Hlen & Hall & Hnd & Hcount).
  cbn [app] in Hloop.
  destruct new as [|r0 new]; [cbn in Hlen; lia|].
  unfold _reserve. rewrite Hempty, Hloop. cbn [lookup list_lookup].
  eexists _, _. split; [reflexivity|].
  cbn [set_Rsc set_vRscs vRscs vEvents vOps State Rsc RscId].
  rewrite load_store_same.
  split; [exact Hlen|]. split; [|split; [exact Hnd|split; [exact Hcount|split]]].
  - assert (Hpos : Forall (fun b => 0 <= b) (map slot_bit (r0 :: new))).
    { apply Forall_forall. intros b Hb. apply list_elem_of_In, in_map_iff in Hb.
      destruct Hb as (r & <- & Hr). rewrite Forall_forall in Hall.
      apply list_elem_of_In in Hr. destruct (Hall r Hr) as (HL & HM & Hid & _).
      unfold slot_bit. rewrite HL, HM. lia. }
    apply Forall_forall. intros r Hr. rewrite Forall_forall in Hall.
    destruct (Hall r Hr) as (HL & HM & Hid & Hclr).
    repeat (split; [assumption|]).
    rewrite testbit_fold_setbit by exact Hpos. rewrite Hclr. cbn [orb].
    apply existsb_exists. exists (slot_bit r).
    split; [|apply Z.eqb_refl]. apply list_elem_of_In in Hr.
    apply in_map_iff. exists r. split; [reflexivity | exact Hr].
  - intros p Hp. apply load_store_other. congruence.
  - repeat (split; [reflexivity|]).
    destruct (length (r0 :: new) <=? 2)%nat; [destruct (RscId r0 <? 2)|]; lia.
Qed.

(** X8, for the four-event resource [configured_quad] and an empty pool. *)
Lemma _reserve_enough_slots_witness :
  exists o' Dev',
    _reserve R_core_row1 configured_quad (mkDevHandle 0 0 0) =
      Some (XAIE_OK, o', Dev') /\
    length (vRscs o') = 4%nat /\
    NoDup (map RscId (vRscs o')).
Proof.
  destruct (_reserve_enough_slots R_core_row1 configured_quad (mkDevHandle 0 0 0))
    as (o' & Dev' & H1 & H2 & _ & H3 & _).
  - intros i. reflexivity.
  - cbn. lia.
  - reflexivity.
  - vm_compute. lia.
  - exists o', Dev'. split; [exact H1|]. split; [exact H2 | exact H3].
Defined.

(** X9.  Reserve, then release: under the conditions of X8, for a resource
    whose row and module agree, [_release] after [_reserve] returns
    [XAIE_OK], empties [vRscs] and gives back the three bitmaps exactly as
    they were before the reservation. *)
Theorem _reserve_release_roundtrip R o Dev :
  (forall i, tile_mod_mismatch (Row (rsc_Loc (R i))) (rsc_Mod (R i)) = false) ->
  tile_mod_mismatch (Row (Loc o)) (Mod o) = false ->
  0 <= spec_scan_base (Loc o) (Mod o) ->
  vRscs o = [] ->
  (1 <= length (vEvents o)
     <= free_slots (load_bits (spec_pool (Mod o)) Dev)
                   (spec_scan_base (Loc o) (Mod o)))%nat ->
  exists o' Dev',
    _reserve R o Dev = Some (XAIE_OK, o', Dev') /\
    _release o' Dev' = (XAIE_OK, set_vRscs o' [], Dev).
Proof.
  intros HR Hpair Hbase Hempty [Hone Hfree].
  destruct (_reserve_loop_enough R (Loc o) (Mod o) HR Hbase
              (length (vEvents o)) 0 Dev [] Hfree)
    as (new & Hloop & Hlen & Hall & _ & _).
  cbn [app] in Hloop.
  destruct new as [|r0 new]; [cbn in Hlen; lia|].
  unfold _reserve. rewrite Hempty, Hloop. cbn [lookup list_lookup].
  eexists _, _. split; [reflexivity|].
  unfold _release. cbn [set_Rsc set_vRscs vRscs].
  f_equal.
  rewrite (fold_XAieReleaseRsc (Loc o) (Mod o)); [|exact Hpair|].
  - rewrite load_store_same, store_store, fold_clearbit_setbit.
    + apply store_load_same.
    + apply Forall_forall. intros b Hb. apply list_elem_of_In, in_map_iff in Hb.
      destruct Hb as (r & <- & Hr). rewrite Forall_forall in Hall.
      apply list_elem_of_In in Hr. destruct (Hall r Hr) as (HL & HM & Hid & Hclr).
      split; [|exact Hclr]. unfold slot_bit. rewrite HL, HM. lia.
  - eapply Forall_impl; [exact Hall|]. intros r (HL & HM & _). auto.
Qed.

(** X9, for the four-event resource [configured_quad] and a pool in which
    three other tiles hold slots. *)
Lemma _reserve_release_roundtrip_witness :
  exists o' Dev',
    _reserve R_core_row1 configured_quad (mkDevHandle 240 5 9) =
      Some (XAIE_OK, o', Dev') /\
    _release o' Dev' = (XAIE_OK, set_vRscs o' [], mkDevHandle 240 5 9).
Proof.
  apply (_reserve_release_roundtrip R_core_row1 configured_quad
           (mkDevHandle 240 5 9)).
  - intros i. reflexivity.
  - reflexivity.
  - cbn. lia.
  - reflexivity.
  - vm_compute. lia.
Defined.

(** * Further properties of [setEvents] and [getEvents] *)

Section SetEventsFacts.

Variable conv : XAie_LocType -> XAie_ModuleType -> XAie_Events -> AieRC.
Variables (L : XAie_LocType) (M : XAie_ModuleType).

Lemma setEvents_loop_length rest : forall i RC vEv,
  length (snd (setEvents_loop conv L M rest i RC vEv)) = length vEv.
Proof.
  induction rest as [|e rest IH]; intros i RC vEv; cbn; [reflexivity|].
  destruct (rc_is_ok (conv L M e)); [|reflexivity].
  now rewrite IH, length_insert.
Qed.

Lemma setEvents_loop_assigned rest : forall i RC vEv,
  rest <> [] \/ RC <> None ->
  fst (setEvents_loop conv L M rest i RC vEv) <> None.
Proof.
  induction rest as [|e rest IH]; intros i RC vEv H; cbn.
  - destruct H as [H|H]; [contradiction | exact H].
  - destruct (rc_is_ok (conv L M e)); [|discriminate].
    apply IH. right. discriminate.
Qed.

Lemma setEvents_loop_ok_all rest : forall i RC vEv,
  rest <> [] ->
  (fst (setEvents_loop conv L M rest i RC vEv) = Some XAIE_OK <->
   Forall (fun e => conv L M e = XAIE_OK) rest).
Proof.
  induction rest as [|e rest IH]; intros i RC vEv Hne; [contradiction|].
  cbn. destruct (rc_is_ok (conv L M e)) eqn:Hok.
  - apply rc_is_ok_true in Hok. destruct rest as [|e' rest'].
    + cbn. rewrite Hok. split; [intros _; repeat constructor; exact Hok | reflexivity].
    + rewrite IH by discriminate. split.
      * intros H. constructor; assumption.
      * intros H. now apply Forall_cons in H.
  - apply rc_is_ok_false in Hok. cbn. split.
    + intros H. inversion H. contradiction.
    + intros H. apply Forall_cons in H. destruct H as [H _]. contradiction.
Qed.

End SetEventsFacts.

(** X10.  [setEvents] on an object with at least one stored event always
    returns, and whatever it returns it keeps the number of stored events,
    the location, the module, the slots and the [Initialized] and [Reserved]
    flags; it never clears [Configured]; and when it does not return
    [XAIE_OK] the stored operations and all flags are as before. *)
Theorem setEvents_keeps_shape conv o vE vOp :
  vEvents o <> [] ->
  exists rc o',
    setEvents conv o vE vOp = Some (rc, o') /\
    length (vEvents o') = length (vEvents o) /\
    Loc o' = Loc o /\ Mod o' = Mod o /\ Rsc o' = Rsc o /\ vRscs o' = vRscs o /\
    Initialized (State o') = Initialized (State o) /\
    Reserved (State o') = Reserved (State o) /\
    (Configured (State o) = true -> Configured (State o') = true) /\
    (rc <> XAIE_OK -> vOps o' = vOps o /\ State o' = State o).
Proof.
  intros Hne. unfold setEvents.
  destruct (negb (Initialized (State o)));
    [exists XAIE_ERR, o; repeat (split; [solve [auto]|]); auto|].
  destruct (setEvents_bad_counts o vE vOp) eqn:Hcnt;
    [exists XAIE_INVALID_ARGS, o; repeat (split; [solve [auto]|]); auto|].
  apply setEvents_bad_counts_false in Hcnt.
  pose proof (setEvents_loop_length conv (Loc o) (Mod o) vE 0 None (vEvents o)) as Hlen.
  pose proof (setEvents_loop_assigned conv (Loc o) (Mod o) vE 0 None (vEvents o)) as Hrc.
  destruct (setEvents_loop conv (Loc o) (Mod o) vE 0 None (vEvents o)) as [RC vEv].
  cbn [fst snd] in Hlen, Hrc.
  destruct RC as [rc|].
  - destruct (rc_is_ok rc) eqn:Hok.
    + eexists _, _. split; [reflexivity|]. cbn.
      repeat (split; [solve [auto]|]).
      intros Hbad. apply rc_is_ok_true in Hok. contradiction.
    + eexists _, _. split; [reflexivity|]. cbn.
      repeat (split; [solve [auto]|]). auto.
  - exfalso. apply Hrc; [|reflexivity]. left. intros ->.
    cbn in Hcnt. destruct (vEvents o); [contradiction | discriminate].
Qed.

(** X10, on a configured two-event object given one event too many. *)
Lemma setEvents_keeps_shape_witness :
  exists rc o',
    setEvents conv_accepts_all configured_pair [1; 2; 3] [0] = Some (rc, o') /\
    length (vEvents o') = 2%nat.
Proof.
  destruct (setEvents_keeps_shape conv_accepts_all configured_pair [1; 2; 3] [0])
    as (rc & o' & H1 & H2 & _).
  - discriminate.
  - exists rc, o'. split; [exact H1 | exact H2].
Defined.

(** X11.  On an object with at least one stored event, [setEvents] returns
    [XAIE_OK] exactly when the object is initialised, the count check lets
    the call through and every event of the call translates. *)
Theorem setEvents_ok_iff conv o vE vOp :
  vEvents o <> [] ->
  ((exists o', setEvents conv o vE vOp = Some (XAIE_OK, o')) <->
   Initialized (State o) = true /\
   setEvents_bad_counts o vE vOp = false /\
   Forall (fun e => conv (Loc o) (Mod o) e = XAIE_OK) vE).
Proof.
  intros Hne. unfold setEvents.
  destruct (Initialized (State o)); cbn [negb].
  2: { split; [intros [o' H]; discriminate | intros (H & _); discriminate]. }
  destruct (setEvents_bad_counts o vE vOp) eqn:Hcnt.
  { split; [intros [o' H]; discriminate | intros (_ & H & _); discriminate]. }
  assert (vE <> []) as HvE.
  { apply setEvents_bad_counts_false in Hcnt. intros ->.
    cbn in Hcnt. destruct (vEvents o); [contradiction | discriminate]. }
  pose proof (setEvents_loop_ok_all conv (Loc o) (Mod o) vE 0 None (vEvents o) HvE)
    as Hiff.
  destruct (setEvents_loop conv (Loc o) (Mod o) vE 0 None (vEvents o)) as [RC vEv].
  cbn [fst] in Hiff. split.
  - intros [o' H]. split; [reflexivity|]. split; [reflexivity|].
    apply Hiff. destruct RC as [rc|]; [|discriminate].
    destruct (rc_is_ok rc) eqn:Hok.
    + apply rc_is_ok_true in Hok. now subst rc.
    + inversion H; subst rc. discriminate Hok.
  - intros (_ & _ & Hall). apply Hiff in Hall. subst RC. cbn. eexists. reflexivity.
Qed.

(** X11, on a fresh two-event object given two translatable events. *)
Lemma setEvents_ok_iff_witness :
  exists o',
    setEvents conv_accepts_all (fresh_combo (XAie_TileLoc 0 1) XAIE_CORE_MOD 2)
      [10; 11] [0] = Some (XAIE_OK, o').
Proof.
  apply (proj2 (setEvents_ok_iff conv_accepts_all
                  (fresh_combo (XAie_TileLoc 0 1) XAIE_CORE_MOD 2) [10; 11] [0]
                  ltac:(discriminate))).
  split; [reflexivity|]. split; [reflexivity|]. repeat constructor.
Defined.

Lemma getEvents_loop_spec BaseE n : forall i vE,
  getEvents_loop BaseE n i vE =
    vE ++ map (fun k => combo_event BaseE (i + Z.of_nat k)) (seq 0 n).
Proof.
  induction n as [|n IH]; intros i vE; cbn [getEvents_loop seq map].
  - now rewrite app_nil_r.
  - rewrite IH. unfold push_back. rewrite <- app_assoc. cbn [app].
    rewrite Z.add_0_r. do 2 f_equal.
    rewrite <- seq_shift, map_map. apply map_ext. intros k. f_equal. lia.
Qed.

(** X12.  [getEvents] on a reserved resource that holds a slot discards what
    the caller left in the vector and returns one event per stored operation.
    With exactly one operation the event is the base event of the tile kind
    and module plus the id of the first slot; otherwise the events are the
    base event plus 0, 1, ... in order, whatever the slots are, and with no
    operation stored the vector comes back empty.  The base is the core or
    memory one on a compute tile, by module, and the interface one on every
    other tile. *)
Theorem getEvents_reserved tileType AIETILE baseCore baseMem basePl o vE r0 :
  Reserved (State o) = true ->
  vRscs o !! 0%nat = Some r0 ->
  exists out,
    getEvents tileType AIETILE baseCore baseMem basePl o vE = Some (XAIE_OK, out) /\
    length out = length (vOps o) /\
    out = map (fun k => combo_event
                 (if tileType (Loc o) =? AIETILE then
                    match Mod o with
                    | XAIE_CORE_MOD => baseCore
                    | _ => baseMem
                    end
                  else basePl)
                 (if (length (vOps o) =? 1)%nat then RscId r0 else Z.of_nat k))
              (seq 0 (length (vOps o))).
Proof.
  intros Hres Hr0. unfold getEvents. rewrite Hres. cbn [negb].
  replace (if mod_eqb (Mod o) XAIE_CORE_MOD then baseCore else baseMem)
    with (match Mod o with XAIE_CORE_MOD => baseCore | _ => baseMem end)
    by (destruct (Mod o); reflexivity).
  destruct (Nat.eqb_spec (length (vOps o)) 1) as [E|E].
  - rewrite Hr0, E. cbn. eexists. repeat split.
  - rewrite getEvents_loop_spec. cbn [app]. eexists. split; [reflexivity|].
    split; [now rewrite length_map, length_seq | reflexivity].
Qed.

(** X12, for the one-operation resource [reserved_pair], which holds slot
    1, on a compute tile whose core base event is 100. *)
Lemma getEvents_reserved_witness :
  exists out,
    getEvents (fun _ => 0) 0 100 200 300 reserved_pair [1; 2; 3] =
      Some (XAIE_OK, out) /\
    out = [101].
Proof.
  destruct (getEvents_reserved (fun _ => 0) 0 100 200 300 reserved_pair [1; 2; 3]
              (mkUserRsc (XAie_TileLoc 2 3) XAIE_CORE_MOD 1) eq_refl eq_refl)
    as (out & H1 & _ & H2).
  exists out. split; [exact H1 | exact H2].
Defined.

(** * Further properties of [_start] and [_stop] *)

Section HardwareFacts.

Variable HW : Type.
Variable cfg :
  HW -> XAie_LocType -> XAie_ModuleType -> XAie_EventComboId ->
  XAie_EventComboOps -> XAie_Events -> XAie_Events -> AieRC * HW.
Variable rst :
  HW -> XAie_LocType -> XAie_ModuleType -> XAie_EventComboId -> AieRC * HW.

(** The combiner that [_start] and [_stop] derive from a slot. *)
Local Abbreviation combo_of r :=
  (if RscId r =? 0 then XAIE_EVENT_COMBO0 else XAIE_EVENT_COMBO1).


(** X14.  [_start] on a three-event resource that has a first slot and a
    first operation: it programs the combiner of the first slot with the
    first operation and the events 0 and 1.  When that call fails, [_start]
    returns its status and its hardware, without a reset.  When it succeeds,
    the second iteration reads [vEvents[3]], which is outside the vector:
    the behaviour is undefined. *)
Theorem _start_three_events o hw e0 e1 e2 op ops r0 rs :
  vEvents o = [e0; e1; e2] ->
  vOps o = op :: ops ->
  vRscs o = r0 :: rs ->
  _start HW cfg rst o hw =
    if rc_is_ok (fst (cfg hw (Loc o) (Mod o) (combo_of r0) op e0 e1))
    then None
    else Some (cfg hw (Loc o) (Mod o) (combo_of r0) op e0 e1).
Proof.
  intros HE HO HR. destruct o as [L M St Rs vE vO vR].
  cbn [vEvents vOps vRscs Loc Mod] in *. subst vE vO vR.
  unfold _start. cbn [length vEvents vOps vRscs Loc Mod].
  change ((3 + 1) / 2)%nat with 2%nat.
  cbn [_start_loop vEvents vOps vRscs Loc Mod Nat.add].
  change (0 / 2)%nat with 0%nat. change (2 / 2)%nat with 1%nat.
  cbn [lookup list_lookup mbind option_bind].
  change (0 =? 0)%nat with true. cbv iota.
  destruct (cfg hw L M (combo_of r0) op e0 e1) as [rc hw1]. cbn [fst].
  destruct (rc_is_ok rc) eqn:Hok.
  - destruct rs as [|r1 [|r2 rs]]; cbn [lookup list_lookup mbind option_bind];
      try reflexivity.
    destruct ops as [|op1 ops]; reflexivity.
  - destruct rc; try discriminate Hok; destruct (RscId r0 =? 0); reflexivity.
Qed.

(** X15.  When the first two programming calls succeed, [_start] on a
    four-event resource with three operations makes three calls in this
    order: events 0 and 1 with operation 0 on the combiner of slot 0, events
    2 and 3 with operation 1 on the combiner of slot 2, and operation 2 on
    combiner 2 with event 0 in both inputs; the result is that of the third
    call. *)
Theorem _start_quad o hw hw1 hw2 e0 e1 e2 e3 p0 p1 p2 r0 r1 r2 rs :
  vEvents o = [e0; e1; e2; e3] ->
  vOps o = [p0; p1; p2] ->
  vRscs o = r0 :: r1 :: r2 :: rs ->
  cfg hw (Loc o) (Mod o) (combo_of r0) p0 e0 e1 = (XAIE_OK, hw1) ->
  cfg hw1 (Loc o) (Mod o) (combo_of r2) p1 e2 e3 = (XAIE_OK, hw2) ->
  _start HW cfg rst o hw =
    Some (cfg hw2 (Loc o) (Mod o) XAIE_EVENT_COMBO2 p2 e0 e0).
Proof.
  intros HE HO HR H1 H2. destruct o as [L M St Rs vE vO vR].
  cbn [vEvents vOps vRscs Loc Mod] in *. subst vE vO vR.
  unfold _start. cbn [length vEvents vOps vRscs Loc Mod].
  change ((4 + 1) / 2)%nat with 2%nat.
  cbn [_start_loop vEvents vOps vRscs Loc Mod Nat.add].
  change (0 / 2)%nat with 0%nat. change (2 / 2)%nat with 1%nat.
  cbn [lookup list_lookup mbind option_bind].
  rewrite H1. cbn [rc_is_ok]. rewrite H2. cbn [rc_is_ok mbind option_bind andb].
  reflexivity.
Qed.

Lemma _stop_loop_rest o n : forall i hw,
  (1 <= i)%nat -> _stop_loop HW rst o n i hw = Some hw.
Proof.
  induction n as [|n IH]; intros i hw Hi; cbn; [reflexivity|].
  destruct (Nat.eqb_spec i 0) as [->|_]; [lia|]. apply IH. lia.
Qed.

(** X16.  [_stop] returns [XAIE_OK] after at most one driver call: with at
    least one stored operation it resets the combiner of the first slot,
    combiner 0 for slot id 0 and combiner 1 otherwise, and no other
    combiner, however many operations are stored; with none it leaves the
    hardware alone.  It reads the first slot, so with operations but no slot
    it is undefined. *)
Theorem _stop_single_reset o hw :
  _stop HW rst o hw =
    match vOps o, vRscs o with
    | [], _ => Some (XAIE_OK, hw)
    | _ :: _, [] => None
    | _ :: _, r0 :: _ =>
        Some (XAIE_OK, snd (rst hw (Loc o) (Mod o) (combo_of r0)))
    end.
Proof.
  unfold _stop. destruct (vOps o) as [|op ops]; [reflexivity|].
  cbn [length _stop_loop]. change (0 =? 0)%nat with true. cbv iota.
  destruct (vRscs o) as [|r0 rs]; [reflexivity|].
  cbn [lookup list_lookup mbind option_bind].
  now rewrite _stop_loop_rest by lia.
Qed.

End HardwareFacts.


(** X14, for the three-event resource [reserved_triple]: on a hardware that
    fails every programming call the error of the first call comes back; on
    one that accepts every call the read outside the vector is reached. *)
Lemma _start_three_events_witness :
  _start (list combo_call) (rec_config (fun _ => true)) rec_reset
    reserved_triple [] =
    Some (XAIE_ERR, [CallConfig XAIE_EVENT_COMBO0 0 10 11 XAIE_ERR]) /\
  _start (list combo_call) (rec_config (fun _ => false)) rec_reset
    reserved_triple [] = None.
Proof.
  split.
  - apply (_start_three_events (list combo_call) (rec_config (fun _ => true))
             rec_reset reserved_triple [] 10 11 12 0 [1]
             (mkUserRsc (XAie_TileLoc 0 1) XAIE_CORE_MOD 0)
             (map (mkUserRsc (XAie_TileLoc 0 1) XAIE_CORE_MOD) [1; 2])
             eq_refl eq_refl eq_refl).
  - apply (_start_three_events (list combo_call) (rec_config (fun _ => false))
             rec_reset reserved_triple [] 10 11 12 0 [1]
             (mkUserRsc (XAie_TileLoc 0 1) XAIE_CORE_MOD 0)
             (map (mkUserRsc (XAie_TileLoc 0 1) XAIE_CORE_MOD) [1; 2])
             eq_refl eq_refl eq_refl).
Defined.

(** X15, for [reserved_quad] on a hardware that accepts every call. *)
Lemma _start_quad_witness :
  _start (list combo_call) (rec_config (fun _ => false)) rec_reset reserved_quad [] =
    Some (XAIE_OK,
          [CallConfig XAIE_EVENT_COMBO0 0 10 11 XAIE_OK;
           CallConfig XAIE_EVENT_COMBO1 1 12 13 XAIE_OK;
           CallConfig XAIE_EVENT_COMBO2 2 10 10 XAIE_OK]).
Proof.
  apply (_start_quad (list combo_call) (rec_config (fun _ => false)) rec_reset
           reserved_quad [] _ _ 10 11 12 13 0 1 2
           (mkUserRsc (XAie_TileLoc 0 1) XAIE_CORE_MOD 0)
           (mkUserRsc (XAie_TileLoc 0 1) XAIE_CORE_MOD 1)
           (mkUserRsc (XAie_TileLoc 0 1) XAIE_CORE_MOD 2)
           [mkUserRsc (XAie_TileLoc 0 1) XAIE_CORE_MOD 3]
           eq_refl eq_refl eq_refl eq_refl eq_refl).
Defined.

(** * Further properties of the simulator backend *)

Lemma regs_register_memory : register_memory (Z -> Z) regs_read regs_write.
Proof.
  unfold register_memory, regs_read, regs_write. cbn. repeat split.
  - intros s a v. now rewrite Z.eqb_refl.
  - intros s a b v Hab. destruct (Z.eqb_spec b a); [congruence | reflexivity].
Qed.

(** X17.  The value [XAie_SimIO_MaskWrite32] writes back, bit by bit, for a
    register value of 32 bits: a bit that is set in [Value] is set, whether
    [Mask] covers it or not; any other bit is cleared where [Mask] is set and
    kept where it is not. *)
Theorem MaskWrite32_value_bits RegVal Mask Value i :
  0 <= RegVal < 2 ^ 32 ->
  0 <= i ->
  Z.testbit (MaskWrite32_value RegVal Mask Value) i =
    if Z.testbit Value i then true
    else if Z.testbit Mask i then false
    else Z.testbit RegVal i.
Proof.
  intros Hv Hi. unfold MaskWrite32_value.
  rewrite Z.lor_spec, Z.land_spec, Z.testbit_mod_pow2, Z.lnot_spec by lia.
  destruct (Z.testbit Value i); [now rewrite orb_true_r|].
  rewrite orb_false_r. destruct (Z.ltb_spec i 32) as [Hlt|Hge]; cbn [andb].
  - destruct (Z.testbit Mask i); cbn; [now rewrite andb_false_r | now rewrite andb_true_r].
  - rewrite andb_false_r.
    assert (Z.testbit RegVal i = false) as ->.
    { destruct (Z.eq_dec RegVal 0) as [->|Hnz]; [apply Z.bits_0|].
      apply Z.bits_above_log2; [lia|].
      apply Z.log2_lt_pow2; [lia|].
      apply Z.lt_le_trans with (2 ^ 32); [lia|].
      apply Z.pow_le_mono_r; lia. }
    now destruct (Z.testbit Mask i).
Qed.

(** X17, for the register value 0xF0, the mask 0x3C and the value 0x05: bit
    0 is set although the mask does not cover it. *)
Lemma MaskWrite32_value_bits_witness :
  Z.testbit (MaskWrite32_value 240 60 5) 0 = true.
Proof.
  rewrite (MaskWrite32_value_bits 240 60 5 0); [reflexivity | lia | lia].
Defined.

Section SimulatorFacts.

Variable Sim : Type.
Variable ess_Read32 : Sim -> Z -> Z * Sim.
Variable ess_Write32 : Sim -> Z -> Z -> Sim.
Variable usleep : Z -> Sim -> Sim.
Variables (IOInst : XAie_SimIO) (RegOff : Z).

Local Abbreviation Read32 := (XAie_SimIO_Read32 Sim ess_Read32 IOInst).
Local Abbreviation Write32 := (XAie_SimIO_Write32 Sim ess_Write32 IOInst).
Local Abbreviation MaskWrite32 :=
  (XAie_SimIO_MaskWrite32 Sim ess_Read32 ess_Write32 IOInst).
Local Abbreviation MaskPoll :=
  (XAie_SimIO_MaskPoll Sim ess_Read32 usleep IOInst).

Lemma XAie_SimIO_MaskWrite32_read_back_aux Mask Value s :
  register_memory Sim ess_Read32 ess_Write32 ->
  fst (Read32 RegOff (MaskWrite32 RegOff Mask Value s)) =
    MaskWrite32_value (fst (Read32 RegOff s)) Mask Value /\
  forall a, a <> (BaseAddr IOInst + RegOff) mod 2 ^ 64 ->
    fst (ess_Read32 (MaskWrite32 RegOff Mask Value s) a) = fst (ess_Read32 s a).
Proof.
  intros (Hkeep & Hsame & Hother).
  unfold XAie_SimIO_MaskWrite32, XAie_SimIO_Write32, XAie_SimIO_Read32.
  pose proof (Hkeep s ((BaseAddr IOInst + RegOff) mod 2 ^ 64)) as Hk.
  destruct (ess_Read32 s ((BaseAddr IOInst + RegOff) mod 2 ^ 64)) as [v s1] eqn:E.
  cbn [fst snd] in *. subst s1. split.
  - apply Hsame.
  - intros a Ha. rewrite Hother by congruence. reflexivity.
Qed.

(** X18.  On a register memory, after [XAie_SimIO_MaskWrite32] the register
    reads [(old & ~Mask) | Value], where [old] is what it read before, and
    every register at another address reads what it read before. *)
Theorem XAie_SimIO_MaskWrite32_read_back Mask Value s :
  register_memory Sim ess_Read32 ess_Write32 ->
  fst (Read32 RegOff (MaskWrite32 RegOff Mask Value s)) =
    MaskWrite32_value (fst (Read32 RegOff s)) Mask Value /\
  forall a, a <> (BaseAddr IOInst + RegOff) mod 2 ^ 64 ->
    fst (ess_Read32 (MaskWrite32 RegOff Mask Value s) a) = fst (ess_Read32 s a).
Proof.
  intros (Hkeep & Hsame & Hother).
  unfold XAie_SimIO_MaskWrite32, XAie_SimIO_Write32, XAie_SimIO_Read32.
  pose proof (Hkeep s ((BaseAddr IOInst + RegOff) mod 2 ^ 64)) as Hk.
  destruct (ess_Read32 s ((BaseAddr IOInst + RegOff) mod 2 ^ 64)) as [v s1] eqn:E.
  cbn [fst snd] in *. subst s1. split.
  - apply Hsame.
  - intros a Ha. rewrite Hother by congruence. reflexivity.
Qed.

(** X19.  Write, then poll: on a register memory, when [Value] has no bit
    outside [Mask], a [XAie_SimIO_MaskPoll] for [Value] under [Mask] that
    follows [XAie_SimIO_MaskWrite32] with the same arguments succeeds on its
    first read, whatever the timeout, and leaves the simulator as it is. *)
Theorem XAie_SimIO_MaskWrite32_then_MaskPoll Mask Value TimeOutUs s :
  register_memory Sim ess_Read32 ess_Write32 ->
  Z.land Value Mask = Value ->
  MaskPoll RegOff Mask Value TimeOutUs (MaskWrite32 RegOff Mask Value s) =
    (XAIELIB_SUCCESS, MaskWrite32 RegOff Mask Value s,
     [MaskWrite32_value (fst (Read32 RegOff s)) Mask Value]).
Proof.
  intros Hmem Hsub.
  pose proof (proj1 (XAie_SimIO_MaskWrite32_read_back_aux Mask Value s Hmem)) as Hrd.
  destruct Hmem as (Hkeep & _ & _).
  unfold XAie_SimIO_MaskPoll.
  destruct (N.to_nat (if (TimeOutUs =? 0)%N then (TimeOutUs + 1)%N else TimeOutUs))
    as [|n] eqn:En.
  { destruct (N.eqb_spec TimeOutUs 0) as [->|Hne]; cbn in En; lia. }
  cbn [MaskPoll_loop].
  pose proof (Hkeep (MaskWrite32 RegOff Mask Value s)
                ((BaseAddr IOInst + RegOff) mod 2 ^ 64)) as Hk.
  unfold XAie_SimIO_Read32 in Hrd |- * at 1.
  destruct (ess_Read32 (MaskWrite32 RegOff Mask Value s)
              ((BaseAddr IOInst + RegOff) mod 2 ^ 64)) as [v s1].
  cbn [fst snd] in Hrd, Hk. subst v s1.
  assert (Z.land (MaskWrite32_value (fst (Read32 RegOff s)) Mask Value) Mask = Value)
    as Hhit.
  { apply Z.bits_inj'. intros i Hi. unfold MaskWrite32_value.
    rewrite Z.land_spec, Z.lor_spec, Z.land_spec, Z.testbit_mod_pow2, Z.lnot_spec by lia.
    rewrite <- Hsub at 2. rewrite Z.land_spec.
    destruct (Z.testbit Value i), (Z.testbit Mask i),
             (Z.testbit (fst (Read32 RegOff s)) i), (i <? 32); reflexivity. }
  unfold XAie_SimIO_Read32 in *. cbv beta iota.
  rewrite Hhit, Z.eqb_refl. reflexivity.
Qed.

End SimulatorFacts.

(** X18, for a register memory that reads 0xF0 everywhere, the mask 0x3C
    and the value 0x05: the register then reads 0xC5. *)
Lemma XAie_SimIO_MaskWrite32_read_back_witness :
  fst (XAie_SimIO_Read32 (Z -> Z) regs_read (mkSimIO 4096) 16
         (XAie_SimIO_MaskWrite32 (Z -> Z) regs_read regs_write (mkSimIO 4096)
            16 60 5 (fun _ => 240))) = 197.
Proof.
  rewrite (proj1 (XAie_SimIO_MaskWrite32_read_back (Z -> Z) regs_read regs_write
                    (mkSimIO 4096) 16 60 5 (fun _ => 240) regs_register_memory)).
  reflexivity.
Defined.

(** X19, on that memory with the mask 0x3C and the value 0x14, polled with
    a timeout of zero. *)
Lemma XAie_SimIO_MaskWrite32_then_MaskPoll_witness :
  fst (fst (XAie_SimIO_MaskPoll (Z -> Z) regs_read regs_usleep (mkSimIO 4096)
              16 60 20 0
              (XAie_SimIO_MaskWrite32 (Z -> Z) regs_read regs_write
                 (mkSimIO 4096) 16 60 20 (fun _ => 240)))) = XAIELIB_SUCCESS.
Proof.
  rewrite (XAie_SimIO_MaskWrite32_then_MaskPoll (Z -> Z) regs_read regs_write
             regs_usleep (mkSimIO 4096) 16 60 20 0%N (fun _ => 240)
             regs_register_memory eq_refl).
  reflexivity.
Defined.

Section BlockFacts.

Variable Sim : Type.
Variable ess_Read32 : Sim -> Z -> Z * Sim.
Variable ess_Write32 : Sim -> Z -> Z -> Sim.
Variables (IOInst : XAie_SimIO) (RegOff : Z).

Lemma BlockSet32_loop_as_BlockWrite32_loop v n : forall i s,
  BlockWrite32_loop Sim ess_Write32 IOInst RegOff (replicate n v) i n s =
    Some (BlockSet32_loop Sim ess_Write32 IOInst RegOff v i n s).
Proof.
  induction n as [|n IH]; intros i s; cbn; [reflexivity | apply IH].
Qed.

(** X20.  [XAie_SimIO_BlockSet32] with a value and a size does what
    [XAie_SimIO_BlockWrite32] does with a buffer that holds the value that
    many times. *)
Theorem XAie_SimIO_BlockSet32_as_BlockWrite32 v Size s :
  XAie_SimIO_BlockWrite32 Sim ess_Write32 IOInst RegOff
    (replicate (N.to_nat Size) v) Size s =
  Some (XAie_SimIO_BlockSet32 Sim ess_Write32 IOInst RegOff v Size s).
Proof. apply BlockSet32_loop_as_BlockWrite32_loop. Qed.

Lemma BlockWrite32_loop_defined n : forall Data i s,
  is_Some (BlockWrite32_loop Sim ess_Write32 IOInst RegOff Data i n s) <->
  (n <= length Data)%nat.
Proof.
  induction n as [|n IH]; intros Data i s; cbn.
  - split; [lia | intros _; eexists; reflexivity].
  - destruct Data as [|d Data]; cbn.
    + split; [intros [x Hx]; discriminate | lia].
    + rewrite IH. lia.
Qed.

(** X21.  [XAie_SimIO_BlockWrite32] stays inside the buffer exactly when the
    buffer holds at least [Size] words; a size of zero writes nothing. *)
Theorem XAie_SimIO_BlockWrite32_defined Data Size s :
  (is_Some (XAie_SimIO_BlockWrite32 Sim ess_Write32 IOInst RegOff Data Size s) <->
   (N.to_nat Size <= length Data)%nat) /\
  XAie_SimIO_BlockWrite32 Sim ess_Write32 IOInst RegOff Data 0 s = Some s.
Proof.
  split; [apply BlockWrite32_loop_defined | reflexivity].
Qed.

(** The address of word [i] of a block that does not wrap around. *)
Lemma block_address i :
  0 <= BaseAddr IOInst -> 0 <= RegOff -> 0 <= i < 2 ^ 30 ->
  BaseAddr IOInst + RegOff + 4 * i < 2 ^ 64 ->
  (BaseAddr IOInst + block_offset RegOff i) mod 2 ^ 64 =
    BaseAddr IOInst + RegOff + 4 * i.
Proof.
  intros HB HR Hi Hfit. unfold block_offset.
  rewrite (Z.mod_small (i * 4)) by lia.
  rewrite (Z.mod_small (RegOff + i * 4)) by lia.
  rewrite Z.mod_small by lia. lia.
Qed.

Lemma BlockWrite32_loop_read_back n : forall Data i s,
  register_memory Sim ess_Read32 ess_Write32 ->
  0 <= BaseAddr IOInst -> 0 <= RegOff -> 0 <= i ->
  i + Z.of_nat n <= 2 ^ 30 ->
  BaseAddr IOInst + RegOff + 4 * (i + Z.of_nat n) <= 2 ^ 64 ->
  (n <= length Data)%nat ->
  exists s',
    BlockWrite32_loop Sim ess_Write32 IOInst RegOff Data i n s = Some s' /\
    (forall k d, (k < n)%nat -> Data !! k = Some d ->
       fst (ess_Read32 s' (BaseAddr IOInst + RegOff + 4 * (i + Z.of_nat k))) = d) /\
    (forall a,
       (forall k, (k < n)%nat -> a <> BaseAddr IOInst + RegOff + 4 * (i + Z.of_nat k)) ->
       fst (ess_Read32 s' a) = fst (ess_Read32 s a)).
Proof.
  induction n as [|n IH]; intros Data i s Hmem HB HR Hi Hn Hfit Hlen.
  - exists s. cbn. split; [reflexivity|]. split; [intros; lia | reflexivity].
  - destruct Data as [|d Data]; [cbn in Hlen; lia|]. cbn [BlockWrite32_loop].
    unfold XAie_SimIO_Write32 at 1.
    rewrite block_address by lia.
    destruct (IH Data (i + 1) (ess_Write32 s (BaseAddr IOInst + RegOff + 4 * i) d)
                Hmem HB HR) as (s' & Hrun & Hin & Hout);
      [lia | lia | lia | cbn in Hlen; lia |].
    destruct Hmem as (_ & Hsame & Hother).
    exists s'. split; [exact Hrun|]. split.
    + intros [|k] d' Hk Hd.
      * cbn in Hd. inversion Hd; subst d'.
        rewrite Hout by (intros k' _; lia).
        replace (i + Z.of_nat 0) with i by lia. apply Hsame.
      * cbn in Hd.
        replace (i + Z.of_nat (S k)) with (i + 1 + Z.of_nat k) by lia.
        apply Hin; [lia | exact Hd].
    + intros a Ha. rewrite Hout.
      * apply Hother. specialize (Ha 0%nat ltac:(lia)).
        replace (i + Z.of_nat 0) with i in Ha by lia. congruence.
      * intros k Hk. specialize (Ha (S k) ltac:(lia)).
        replace (i + 1 + Z.of_nat k) with (i + Z.of_nat (S k)) by lia. exact Ha.
Qed.

(** X22.  On a register memory, for a block of at most 2^30 words that ends
    below 2^64 and a buffer that holds at least [Size] words,
    [XAie_SimIO_BlockWrite32] returns, word [k] of the buffer is then read
    at the address [BaseAddr + RegOff + 4 * k], and every register that is
    not one of these reads what it read before. *)
Theorem XAie_SimIO_BlockWrite32_read_back Data Size s :
  register_memory Sim ess_Read32 ess_Write32 ->
  0 <= BaseAddr IOInst -> 0 <= RegOff ->
  Z.of_N Size <= 2 ^ 30 ->
  BaseAddr IOInst + RegOff + 4 * Z.of_N Size <= 2 ^ 64 ->
  (N.to_nat Size <= length Data)%nat ->
  exists s',
    XAie_SimIO_BlockWrite32 Sim ess_Write32 IOInst RegOff Data Size s = Some s' /\
    (forall k d, (k < N.to_nat Size)%nat -> Data !! k = Some d ->
       fst (ess_Read32 s' (BaseAddr IOInst + RegOff + 4 * Z.of_nat k)) = d) /\
    (forall a,
       (forall k, (k < N.to_nat Size)%nat ->
                  a <> BaseAddr IOInst + RegOff + 4 * Z.of_nat k) ->
       fst (ess_Read32 s' a) = fst (ess_Read32 s a)).
Proof.
  intros Hmem HB HR Hsz Hfit Hlen.
  destruct (BlockWrite32_loop_read_back (N.to_nat Size) Data 0 s Hmem HB HR)
    as (s' & Hrun & Hin & Hout); [lia | lia | lia | exact Hlen |].
  exists s'. split; [exact Hrun|]. split.
  - intros k d Hk Hd. rewrite <- (Hin k d Hk Hd). do 2 f_equal.
  - intros a Ha. apply Hout. intros k Hk. exact (Ha k Hk).
Qed.

End BlockFacts.

(** X22, for three words written at offset 16 of a memory that reads 0
    everywhere: the second word is read at address 4096 + 16 + 4. *)
Lemma XAie_SimIO_BlockWrite32_read_back_witness :
  exists s',
    XAie_SimIO_BlockWrite32 (Z -> Z) regs_write (mkSimIO 4096) 16 [7; 8; 9] 3
      (fun _ => 0) = Some s' /\
    fst (regs_read s' 4116) = 8.
Proof.
  destruct (XAie_SimIO_BlockWrite32_read_back (Z -> Z) regs_read regs_write
              (mkSimIO 4096) 16 [7; 8; 9] 3%N (fun _ => 0) regs_register_memory)
    as (s' & H1 & H2 & _).
  - cbn. lia.
  - lia.
  - cbn. lia.
  - cbn. lia.
  - cbn. lia.
  - exists s'. split; [exact H1|]. exact (H2 1%nat 8 ltac:(cbn; lia) eq_refl).
Defined.

Section MaskPollMore.

Variable Sim : Type.
Variable ess_Read32 : Sim -> Z -> Z * Sim.
Variable usleep : Z -> Sim -> Sim.
Variables (IOInst : XAie_SimIO) (RegOff Mask Value : Z).

Local Abbreviation hits :=
  (poll_hits Sim ess_Read32 usleep IOInst RegOff Mask Value).
Local Abbreviation state_at := (sim_after Sim ess_Read32 usleep IOInst RegOff).
Local Abbreviation value_at := (read_at Sim ess_Read32 usleep IOInst RegOff).
Local Abbreviation poll_loop :=
  (MaskPoll_loop Sim ess_Read32 usleep IOInst RegOff Mask Value).

(** The loop stops at the first poll that hits. *)
Lemma MaskPoll_loop_first_hit s k : forall n j acc,
  (k < n)%nat ->
  (forall i, (i < k)%nat -> ~ hits s (j + i)%nat) ->
  hits s (j + k)%nat ->
  poll_loop n (state_at j s) acc =
    (XAIELIB_SUCCESS,
     snd (XAie_SimIO_Read32 Sim ess_Read32 IOInst RegOff (state_at (j + k)%nat s)),
     acc ++ map (fun i => value_at i s) (seq j (S k))).
Proof.
  induction k as [|k IH]; intros n j acc Hn Hmiss Hhit;
    (destruct n as [|n]; [lia|]); cbn [MaskPoll_loop].
  - rewrite Nat.add_0_r in Hhit |- *. unfold poll_hits, read_at in Hhit.
    unfold read_at. cbn [seq map].
    destruct (XAie_SimIO_Read32 Sim ess_Read32 IOInst RegOff (state_at j s))
      as [v s1]. cbn [fst snd] in *.
    apply Z.eqb_eq in Hhit. now rewrite Hhit.
  - pose proof (Hmiss 0%nat ltac:(lia)) as H0. rewrite Nat.add_0_r in H0.
    unfold poll_hits, read_at in H0.
    pose proof (IH n (S j) (acc ++ [value_at j s])) as IH'.
    cbn [sim_after] in IH'. unfold read_at in IH' at 1.
    destruct (XAie_SimIO_Read32 Sim ess_Read32 IOInst RegOff (state_at j s))
      as [v s1]. cbn [fst snd] in *.
    apply Z.eqb_neq in H0. rewrite H0. rewrite IH'.
    + replace (S j + k)%nat with (j + S k)%nat by lia.
      cbn [seq map]. unfold read_at at 3. rewrite <- app_assoc. reflexivity.
    + lia.
    + intros i Hi. replace (S j + i)%nat with (j + S i)%nat by lia.
      apply Hmiss. lia.
    + replace (S j + k)%nat with (j + S k)%nat by lia. exact Hhit.
Qed.

(** X23.  [XAie_SimIO_MaskPoll] stops at the first poll that hits: when poll
    [k] is the first to see the expected value and [k] is below
    max(TimeOutUs, 1), the call succeeds after exactly [k + 1] reads, the
    values read are those of the polls 0 to [k], and the simulator is left as
    the last read left it, with [usleep(1)] called [k] times. *)
Theorem XAie_SimIO_MaskPoll_first_hit TimeOutUs s k :
  (k < N.to_nat (N.max TimeOutUs 1))%nat ->
  (forall i, (i < k)%nat -> ~ hits s i) ->
  hits s k ->
  XAie_SimIO_MaskPoll Sim ess_Read32 usleep IOInst RegOff Mask Value TimeOutUs s =
    (XAIELIB_SUCCESS,
     snd (XAie_SimIO_Read32 Sim ess_Read32 IOInst RegOff (state_at k s)),
     map (fun i => value_at i s) (seq 0 (S k))).
Proof.
  intros Hk Hmiss Hhit. unfold XAie_SimIO_MaskPoll.
  rewrite (MaskPoll_budget TimeOutUs).
  exact (MaskPoll_loop_first_hit s k _ 0%nat [] Hk Hmiss Hhit).
Qed.

(** X24.  A longer timeout does not change a poll that succeeds: when
    [XAie_SimIO_MaskPoll] succeeds with a timeout, it returns the same
    status, simulator and reads with every larger one. *)
Theorem XAie_SimIO_MaskPoll_timeout_monotone TimeOutUs TimeOutUs' s :
  fst (fst (XAie_SimIO_MaskPoll Sim ess_Read32 usleep IOInst RegOff Mask Value
              TimeOutUs s)) = XAIELIB_SUCCESS ->
  (TimeOutUs <= TimeOutUs')%N ->
  XAie_SimIO_MaskPoll Sim ess_Read32 usleep IOInst RegOff Mask Value TimeOutUs' s =
  XAie_SimIO_MaskPoll Sim ess_Read32 usleep IOInst RegOff Mask Value TimeOutUs s.
Proof.
  intros Hs Hle. unfold XAie_SimIO_MaskPoll in *.
  rewrite (MaskPoll_budget TimeOutUs) in *. rewrite (MaskPoll_budget TimeOutUs').
  destruct (MaskPoll_loop_spec Sim ess_Read32 usleep IOInst RegOff Mask Value s
              (N.to_nat (N.max TimeOutUs 1)) 0 [])
    as (m & Hm & _ & Hbefore & Hend).
  cbn [sim_after] in Hend.
  destruct Hend as [(_ & Hm1 & Hhit)|(Hf & _ & _)]; [|rewrite Hs in Hf; discriminate].
  cbn [Nat.add] in Hhit, Hbefore.
  assert (Hmiss : forall i, (i < m - 1)%nat -> ~ hits s i)
    by (intros i Hi; apply Hbefore; lia).
  assert (m - 1 < N.to_nat (N.max TimeOutUs 1))%nat as Hlt by lia.
  assert (m - 1 < N.to_nat (N.max TimeOutUs' 1))%nat as Hlt' by lia.
  pose proof (MaskPoll_loop_first_hit s (m - 1) _ 0%nat [] Hlt' Hmiss Hhit) as H'.
  pose proof (MaskPoll_loop_first_hit s (m - 1) _ 0%nat [] Hlt Hmiss Hhit) as H.
  cbn [sim_after] in H, H'. now rewrite H, H'.
Qed.

End MaskPollMore.

(** X23, for the register that reads 0 twice and then 5, with a timeout of
    10: the call stops after three reads. *)
Lemma XAie_SimIO_MaskPoll_first_hit_witness :
  XAie_SimIO_MaskPoll nat (counter_read 2) counter_usleep (mkSimIO 0) 16 7 5 10 0%nat =
    (XAIELIB_SUCCESS, 2%nat, [0; 0; 5]).
Proof.
  apply (XAie_SimIO_MaskPoll_first_hit nat (counter_read 2) counter_usleep
           (mkSimIO 0) 16 7 5 10%N 0%nat 2%nat).
  - cbn. lia.
  - intros i Hi. assert (i = 0 \/ i = 1)%nat as [-> | ->] by lia; discriminate.
  - reflexivity.
Defined.

(** X24, for that register and the timeouts 3 and 10. *)
Lemma XAie_SimIO_MaskPoll_timeout_monotone_witness :
  XAie_SimIO_MaskPoll nat (counter_read 2) counter_usleep (mkSimIO 0) 16 7 5 10 0%nat =
  XAie_SimIO_MaskPoll nat (counter_read 2) counter_usleep (mkSimIO 0) 16 7 5 3 0%nat.
Proof.
  apply (XAie_SimIO_MaskPoll_timeout_monotone nat (counter_read 2) counter_usleep
           (mkSimIO 0) 16 7 5 3%N 10%N 0%nat).
  - reflexivity.
  - lia.
Defined.

(** * The opening test of [XAieAllocRsc] and valid requests *)

(** C5.  A request for a core slot at column 0, row 1, a tile whose four
    slots are all free, is turned down without a scan when the record that
    the caller left in [R] pairs row 0 with the core module: the opening
    test reads [R], not the request, and the call returns
    [XAIE_INVALID_ARGS] with the bitmaps as they were, where the scan from
    the base 0 would have found bit 0 free. *)
Theorem XAieAllocRsc_valid_request_turned_down :
  tile_mod_mismatch (Row (XAie_TileLoc 0 1)) XAIE_CORE_MOD = false /\
  spec_scan_base (XAie_TileLoc 0 1) XAIE_CORE_MOD = 0 /\
  first_clear_in (load_bits (spec_pool XAIE_CORE_MOD) (mkDevHandle 0 0 0)) 0 4 0 /\
  XAieAllocRsc (mkDevHandle 0 0 0) (XAie_TileLoc 0 1) XAIE_CORE_MOD
    (mkUserRsc (XAie_TileLoc 0 0) XAIE_CORE_MOD 0) =
  (XAIE_INVALID_ARGS, mkDevHandle 0 0 0,
   mkUserRsc (XAie_TileLoc 0 0) XAIE_CORE_MOD 0).
Proof.
  split; [reflexivity|]. split; [reflexivity|]. split; [|reflexivity].
  split; [lia|]. split; [reflexivity|]. intros q Hq. lia.
Qed.

(** * [_start] on the objects of the class *)





